(** * Hypothesis-test notebooks: chi-squared tests, Z-tests and T-tests

    A shallow embedding of the two notebooks of the repository:

    - the chi-squared notebook (simple test on one column of counts,
      contingency test on a table, goodness of fit against a supplied
      distribution), and
    - [python/notebooks/statistical-tests/t-tests.ipynb] (Z-scores, the
      one-sample T-test, Welch's and the pooled two-sample T-tests, the
      paired T-test).

    Every cell that computes something is turned into a function of the data
    the cell reads (the notebook's global variables become arguments), and is
    written once, over an abstract arithmetic [Number].  Two arithmetics are
    provided:

    - [R_Number], exact real arithmetic: a float64 is read as the real
      number it stands for, rounding is not modelled, and the two ways the
      interpreter reacts to an undefined operation are kept apart (Python
      raises [ZeroDivisionError], numpy returns nan or inf and warns);
    - [B64_Number], IEEE-754 binary64 as Python and numpy compute it,
      on which the cells' recorded outputs can be replayed.

    The statements about "every sample" or "every table" are proved in the
    exact arithmetic. *)

From Stdlib Require Import Floats Uint63.
From Stdlib Require Import Reals Lra Lia Psatz List ZArith Bool Permutation.
Import ListNotations.

Set Warnings "-inexact-float".

(** ** Outcomes of a cell *)

(** The exceptions that matter here.  [InvalidInputError] is the error
    class the specification names; no cell of the notebooks raises it. *)
Inductive exn : Set :=
| ZeroDivisionError
| ValueError
| InvalidInputError.

(** What evaluating a cell gives: a finite number (or a structure of finite
    numbers), numpy's nan/inf (which every operation used in the notebooks
    propagates to the final result), or a Python exception. *)
Inductive outcome (A : Type) : Type :=
| Ok (a : A)
| NotFinite
| Raise (e : exn).

Arguments Ok {A} a.
Arguments NotFinite {A}.
Arguments Raise {A} e.

Definition bind {A B : Type} (m : outcome A) (k : A -> outcome B) : outcome B :=
  match m with
  | Ok a => k a
  | NotFinite => NotFinite
  | Raise e => Raise e
  end.

Notation "x <- m ;; k" := (bind m (fun x => k))
  (at level 61, m at next level, right associativity).

Fixpoint mapM {A B : Type} (f : A -> outcome B) (l : list A) : outcome (list B) :=
  match l with
  | [] => Ok []
  | a :: l' => b <- f a ;; bs <- mapM f l' ;; Ok (b :: bs)
  end.

(** ** The arithmetic of the interpreter *)

Class Number (F : Type) : Type := {
  of_Z : Z -> F;                         (* an int used where a float is expected *)
  add : F -> F -> F;
  sub : F -> F -> F;
  mul : F -> F -> F;
  absval : F -> F;                       (* abs(x) *)
  truediv : F -> F -> outcome F;         (* Python's x / y on floats and ints *)
  math_sqrt : F -> outcome F;            (* math.sqrt(x) *)
  np_true_divide : F -> F -> outcome F;  (* numpy's x / y *)
  np_sqrt : F -> outcome F;              (* numpy's sqrt, as np.std takes it *)
  py_int : F -> Z                        (* int(x): truncation towards zero *)
}.

(** Exact real arithmetic. *)
#[export] Instance R_Number : Number R := {
  of_Z := IZR;
  add := Rplus;
  sub := Rminus;
  mul := Rmult;
  absval := Rabs;
  truediv x y := if Req_dec_T y 0 then Raise ZeroDivisionError else Ok (x / y)%R;
  math_sqrt x := if Rlt_dec x 0 then Raise ValueError else Ok (sqrt x);
  np_true_divide x y := if Req_dec_T y 0 then NotFinite else Ok (x / y)%R;
  np_sqrt x := if Rlt_dec x 0 then NotFinite else Ok (sqrt x);
  py_int x := if Rle_dec 0 x then Int_part x else (- Int_part (- x))%Z
}.

(** IEEE-754 binary64. An int becomes the nearest float; numpy's nan and
    inf are ordinary values of the type. *)
Definition b64_of_Z (z : Z) : float :=
  match z with
  | Z0 => PrimFloat.of_uint63 0
  | Zpos _ => PrimFloat.of_uint63 (Uint63.of_Z z)
  | Zneg _ => PrimFloat.opp (PrimFloat.of_uint63 (Uint63.of_Z (- z)))
  end.

(** [int(x)] of a finite float. *)
Definition b64_to_Z (x : float) : Z :=
  match Prim2SF x with
  | S754_finite sign m e =>
      let magnitude := if (0 <=? e)%Z then (Zpos m * 2 ^ e)%Z
                       else (Zpos m / 2 ^ (- e))%Z in
      if sign then (- magnitude)%Z else magnitude
  | _ => 0%Z
  end.

#[export] Instance B64_Number : Number float := {
  of_Z := b64_of_Z;
  add := PrimFloat.add;
  sub := PrimFloat.sub;
  mul := PrimFloat.mul;
  absval := PrimFloat.abs;
  truediv x y :=
    if PrimFloat.eqb y PrimFloat.zero then Raise ZeroDivisionError
    else Ok (PrimFloat.div x y);
  math_sqrt x :=
    if PrimFloat.ltb x PrimFloat.zero then Raise ValueError
    else Ok (PrimFloat.sqrt x);
  np_true_divide x y := Ok (PrimFloat.div x y);
  np_sqrt x := Ok (PrimFloat.sqrt x);
  py_int := b64_to_Z
}.

Section Builtins.
Context {F : Type} {N : Number F}.

(** [x ** 2] *)
Definition pow2 (x : F) : F := mul x x.

(** A float literal or constant that is the quotient of two ints, such
    as [0.1], [0.5] or [1.0/9007199254740992.0]. *)
Definition ratio (p q : Z) : F :=
  match truediv (of_Z p) (of_Z q) with
  | Ok x => x
  | _ => of_Z 0
  end.

(** Python's [sum(xs)]: a left fold that starts from the int 0. *)
Definition py_sum (xs : list F) : F := fold_left add xs (of_Z 0).

(** [len(xs)] *)
Definition len (xs : list F) : Z := Z.of_nat (length xs).

(** numpy's and pandas' [sum] of a one-dimensional float array is the
    identity 0 plus [pairwise_sum] of the array:
    - fewer than 8 entries are added from left to right;
    - up to 128 entries go to eight accumulators [r[0..7]], block of eight
      after block of eight, which are then added as
      [((r[0] + r[1]) + (r[2] + r[3])) + ((r[4] + r[5]) + (r[6] + r[7]))],
      and the entries left over are added one by one;
    - a longer array is split at [n2 = n/2 - (n/2) % 8] and the two sums are
      added.
    The recursion takes [fuel], of which the length of the array is enough. *)
Fixpoint accumulate8 (r xs : list F) (blocks : nat) : list F * list F :=
  match blocks with
  | O => (r, xs)
  | S blocks' =>
      accumulate8 (map (fun p => add (fst p) (snd p)) (combine r (firstn 8 xs)))
                  (skipn 8 xs) blocks'
  end.

Definition pairwise_block (xs : list F) : F :=
  let '(r, rest) := accumulate8 (firstn 8 xs) (skipn 8 xs) (length xs / 8 - 1) in
  match r with
  | [r0; r1; r2; r3; r4; r5; r6; r7] =>
      fold_left add rest
        (add (add (add r0 r1) (add r2 r3)) (add (add r4 r5) (add r6 r7)))
  | _ => of_Z 0
  end.

Fixpoint pairwise_sum (fuel : nat) (xs : list F) : F :=
  let n := length xs in
  if Nat.ltb n 8 then fold_left add xs (of_Z 0)
  else if Nat.leb n 128 then pairwise_block xs
  else match fuel with
       | O => of_Z 0
       | S fuel' =>
           let n2 := (n / 2 - (n / 2) mod 8)%nat in
           add (pairwise_sum fuel' (firstn n2 xs))
               (pairwise_sum fuel' (skipn n2 xs))
       end.

Definition np_sum (xs : list F) : F :=
  add (of_Z 0) (pairwise_sum (length xs) xs).

(** [np.mean(xs)] *)
Definition np_mean (xs : list F) : outcome F :=
  np_true_divide (np_sum xs) (of_Z (len xs)).

(** A column (pandas Series, numpy array) combined with a scalar. *)
Definition series_sub_scalar (xs : list F) (c : F) : list F :=
  map (fun x => sub x c) xs.
Definition series_mul_scalar (xs : list F) (c : F) : list F :=
  map (fun x => mul x c) xs.
Definition series_div_scalar (xs : list F) (c : F) : outcome (list F) :=
  mapM (fun x => np_true_divide x c) xs.

(** Two columns of one DataFrame, combined entry by entry. *)
Definition series_sub (xs ys : list F) : list F :=
  map (fun p => sub (fst p) (snd p)) (combine xs ys).
Definition series_div (xs ys : list F) : outcome (list F) :=
  mapM (fun p => np_true_divide (fst p) (snd p)) (combine xs ys).
Definition series_pow2 (xs : list F) : list F := map pow2 xs.
End Builtins.

(** ** The chi-squared notebook *)

(** The data cells. *)
Module Shops.
Section Cells.
Context {F : Type} {N : Number F}.

(** [df = pd.DataFrame({"shirts": {"Primark": 28, "Debenhams": 32, "Next": 27}})],
    in the order pandas prints the frame: Debenhams, Next, Primark. *)
Definition shirts : list F := map of_Z [32; 27; 28]%Z.

(** [df = pd.DataFrame({"shirts": {"Primark": 20, "Debenhams": 21, "Next": 46}})] *)
Definition shirts_imbalanced : list F := map of_Z [21; 46; 20]%Z.

(** [df = pd.DataFrame({"shirts": {"Primark": 28, "Debenhams": 32, "Next": 27},]
    [                   "vests": {"Primark": 61, "Debenhams": 62, "Next": 57}})],
    one row per store: Primark, Debenhams, Next. *)
Definition shirts_and_vests : list (list F) :=
  map (map of_Z) [[28; 61]; [32; 62]; [27; 57]]%Z.

(** [df = pd.DataFrame({"shirts": {"Primark": 28, "Debenhams": 32, "Next": 27},]
    [    "expected_shirts": {"Primark": 30, "Debenhams": 35, "Next": 30}})] *)
Definition observed_shirts : list F := map of_Z [28; 32; 27]%Z.
Definition expected_shirts : list F := map of_Z [30; 35; 30]%Z.
End Cells.
End Shops.

Module Simple.
Section Cells.
Context {F : Type} {N : Number F}.

(** [e_i = np.mean(df["shirts"])]
    [chi_2 = np.sum((df["shirts"].array - e_i) ** 2 / e_i)] *)
Definition chi_2 (shirts : list F) : outcome F :=
  e_i <- np_mean shirts ;;
  terms <- series_div_scalar (series_pow2 (series_sub_scalar shirts e_i)) e_i ;;
  Ok (np_sum terms).
End Cells.
End Simple.

Module GoodnessOfFit.
Section Cells.
Context {F : Type} {N : Number F}.

(** [df["expected_shirts_normed"] =
      df["expected_shirts"] * df["shirts"].sum() / df["expected_shirts"].sum()] *)
Definition expected_shirts_normed (shirts expected_shirts : list F)
  : outcome (list F) :=
  series_div_scalar (series_mul_scalar expected_shirts (np_sum shirts))
                    (np_sum expected_shirts).

(** [chi_2 = np.sum((df["shirts"] - df["expected_shirts_normed"]) ** 2
                    / df["expected_shirts_normed"])] *)
Definition chi_2 (shirts normed : list F) : outcome F :=
  terms <- series_div (series_pow2 (series_sub shirts normed)) normed ;;
  Ok (np_sum terms).

(** The two cells in sequence: normalise, then compute the statistic. *)
Definition goodness_of_fit (shirts expected_shirts : list F) : outcome F :=
  normed <- expected_shirts_normed shirts expected_shirts ;;
  chi_2 shirts normed.

(** The degrees of freedom the notebook passes to [chi2.cdf]: [3-1] for
    its three cells, [k = n - 1 - q] with [q] fitted parameters in the
    text before the cell. *)
Definition dof (shirts : list F) (q : Z) : Z := len shirts - 1 - q.
End Cells.
End GoodnessOfFit.

Module Contingency.
Section Cells.
Context {F : Type} {N : Number F}.

(** A DataFrame of counts: the list of its rows, every row with one entry
    per column.  Row and column labels are positions. *)
Definition table : Type := list (list F).

Definition nrows (df : table) : nat := length df.
Definition ncols (df : table) : nat := length (hd [] df).

(** [df.loc[row_id, col_id]] for a row and a column of the frame. *)
Definition loc (df : table) (row_id col_id : nat) : F :=
  nth col_id (nth row_id df []) (of_Z 0).

(** [df.sum(numeric_only=True, axis=0)]: one sum per column. *)
Definition sum_axis0 (df : table) : list F :=
  map (fun col_id => np_sum (map (fun row => nth col_id row (of_Z 0)) df))
      (seq 0 (ncols df)).

(** [df.sum(numeric_only=True, axis=1)]: one sum per row. *)
Definition sum_axis1 (df : table) : list F := map np_sum df.

(** [df_totals = df.copy()]
    [df_totals.loc['Total'] = df_totals.sum(numeric_only=True, axis=0)]
    [df_totals.loc[:,'Total'] = df_totals.sum(numeric_only=True, axis=1)]
    The row ['Total'] is appended first, so the column ['Total'] also gets
    an entry in that row: the grand total. *)
Definition df_totals (df : table) : table :=
  let with_row := df ++ [sum_axis0 df] in
  map (fun p => fst p ++ [snd p]) (combine with_row (sum_axis1 with_row)).

(** The positions of the labels ['Total'] in [df_totals]. *)
Definition Total_row (df_tots : table) : nat := nrows df_tots - 1.
Definition Total_col (df_tots : table) : nat := ncols df_tots - 1.

(** [def get_expected(df_tots, row_id, column_id):]
    [    return df_tots.loc[row_id, "Total"] * df_tots.loc["Total", column_id]
                / df_tots.loc["Total", "Total"]] *)
Definition get_expected (df_tots : table) (row_id column_id : nat) : outcome F :=
  np_true_divide
    (mul (loc df_tots row_id (Total_col df_tots))
         (loc df_tots (Total_row df_tots) column_id))
    (loc df_tots (Total_row df_tots) (Total_col df_tots)).

(** The body of the inner loop:
    [o_i = df.loc[row_id, col_id]]
    [e_i = get_expected(df_totals, row_id, col_id)]
    [chi_2 += (o_i - e_i) ** 2 / e_i] *)
Definition chi_2_step (df df_tots : table) (row_id col_id : nat) (chi_2 : F)
  : outcome F :=
  let o_i := loc df row_id col_id in
  e_i <- get_expected df_tots row_id col_id ;;
  term <- np_true_divide (pow2 (sub o_i e_i)) e_i ;;
  Ok (add chi_2 term).

(** A [for] loop over [ids] that updates one variable. *)
Definition for_each {A : Type} (ids : list nat) (body : nat -> A -> outcome A)
  (init : outcome A) : outcome A :=
  fold_left (fun acc id => a <- acc ;; body id a) ids init.

(** [chi_2 = 0.0]
    [for row_id in df.index:]
    [    for col_id in df.columns:]
    [        ...] *)
Definition chi_2 (df : table) : outcome F :=
  let df_tots := df_totals df in
  for_each (seq 0 (nrows df))
    (fun row_id chi_2 =>
       for_each (seq 0 (ncols df))
         (fun col_id chi_2 => chi_2_step df df_tots row_id col_id chi_2)
         (Ok chi_2))
    (Ok (of_Z 0)).

(** The degrees of freedom passed to [chi2.cdf]: the literal [2], which
    the text before the cell obtains as (number of rows - 1) x (number of
    columns - 1) = (3-1) x (2-1). *)
Definition dof (df : table) : Z :=
  (Z.of_nat (nrows df) - 1) * (Z.of_nat (ncols df) - 1).
End Cells.
End Contingency.

(** ** Python's [random] module: the Mersenne Twister MT19937 *)

(** Modelled from the spec: the generator behind [random.seed] and
    [random.random], from which the "sample drawn deterministically from a
    fixed seed" comes, is missing: it belongs to the Python runtime, not to
    the repository.  It is CPython's MT19937 ([init_genrand],
    [init_by_array], [genrand_uint32] and the 53-bit [random]). *)
Module MT19937.
Local Open Scope Z_scope.

Definition N : nat := 624.
Definition M : nat := 397.
Definition MATRIX_A : Z := 0x9908b0df.
Definition UPPER_MASK : Z := 0x80000000.
Definition LOWER_MASK : Z := 0x7fffffff.

(** A value kept in a [uint32_t]. *)
Definition u32 (z : Z) : Z := Z.land z 0xffffffff.

Record state : Type := { mt : list Z; index : nat }.

Definition get (mt : list Z) (i : nat) : Z := nth i mt 0.

Fixpoint set (mt : list Z) (i : nat) (v : Z) : list Z :=
  match mt, i with
  | [], _ => []
  | _ :: rest, O => v :: rest
  | x :: rest, S i' => x :: set rest i' v
  end.

(** [init_genrand(s)]:
    [mt[0] = s;]
    [for (mti=1; mti<N; mti++)]
    [    mt[mti] = (1812433253U * (mt[mti-1] ^ (mt[mti-1] >> 30)) + mti);] *)
Fixpoint init_genrand_from (count : nat) (mti : Z) (prev : Z) : list Z :=
  match count with
  | O => []
  | S count' =>
      let v := u32 (1812433253 * Z.lxor prev (Z.shiftr prev 30) + mti) in
      v :: init_genrand_from count' (mti + 1) v
  end.

Definition init_genrand (s : Z) : state :=
  {| mt := u32 s :: init_genrand_from (N - 1) 1 (u32 s); index := N |}.

(** The two loops of [init_by_array(init_key, key_length)], one step each;
    [i] and [j] are the C variables. *)
Definition key_step (init_key : list Z) (st : list Z * nat * nat) : list Z * nat * nat :=
  let '(mt, i, j) := st in
  let prev := get mt (i - 1) in
  let v := u32 (Z.lxor (get mt i) (Z.lxor prev (Z.shiftr prev 30) * 1664525)
                + get init_key j + Z.of_nat j) in
  let mt := set mt i v in
  let i := S i in
  let j := S j in
  let '(mt, i) := if Nat.leb N i then (set mt 0 (get mt (N - 1)), 1%nat) else (mt, i) in
  let j := if Nat.leb (length init_key) j then 0%nat else j in
  (mt, i, j).

Definition mix_step (st : list Z * nat) : list Z * nat :=
  let '(mt, i) := st in
  let prev := get mt (i - 1) in
  let v := u32 (Z.lxor (get mt i) (Z.lxor prev (Z.shiftr prev 30) * 1566083941)
                - Z.of_nat i) in
  let mt := set mt i v in
  let i := S i in
  if Nat.leb N i then (set mt 0 (get mt (N - 1)), 1%nat) else (mt, i).

Fixpoint iterate {A : Type} (k : nat) (f : A -> A) (a : A) : A :=
  match k with
  | O => a
  | S k' => iterate k' f (f a)
  end.

Definition init_by_array (init_key : list Z) : state :=
  let st := init_genrand 19650218 in
  let k := Nat.max N (length init_key) in
  let '(mt, i, _) := iterate k (key_step init_key) (mt st, 1%nat, 0%nat) in
  let '(mt, _) := iterate (N - 1) mix_step (mt, i) in
  {| mt := set mt 0 0x80000000; index := N |}.

(** [random.seed(a)] for an int [a] below 2^32 in absolute value: the key
    is the single 32-bit word [abs(a)]. *)
Definition seed (a : Z) : state := init_by_array [Z.abs a].

(** One step of the regeneration loop of [genrand_uint32]:
    [y = (mt[kk]&UPPER_MASK)|(mt[next]&LOWER_MASK);]
    [mt[kk] = mt[other] ^ (y >> 1) ^ mag01[y & 0x1U];] *)
Definition twist_at (mt : list Z) (kk next other : nat) : list Z :=
  let y := Z.lor (Z.land (get mt kk) UPPER_MASK) (Z.land (get mt next) LOWER_MASK) in
  let mag := if Z.testbit y 0 then MATRIX_A else 0 in
  set mt kk (Z.lxor (Z.lxor (get mt other) (Z.shiftr y 1)) mag).

Definition regenerate (mt : list Z) : list Z :=
  let mt := fold_left (fun mt kk => twist_at mt kk (kk + 1) (kk + M))
                      (seq 0 (N - M)) mt in
  let mt := fold_left (fun mt kk => twist_at mt kk (kk + 1) (kk + M - N))
                      (seq (N - M) (M - 1)) mt in
  twist_at mt (N - 1) 0 (M - 1).

(** [genrand_uint32] *)
Definition genrand_uint32 (st : state) : Z * state :=
  let st := if Nat.leb N (index st)
            then {| mt := regenerate (mt st); index := 0 |} else st in
  let y := get (mt st) (index st) in
  let y := Z.lxor y (Z.shiftr y 11) in
  let y := Z.lxor y (Z.land (Z.shiftl y 7) 0x9d2c5680) in
  let y := Z.lxor y (Z.land (Z.shiftl y 15) 0xefc60000) in
  let y := Z.lxor y (Z.shiftr y 18) in
  (u32 y, {| mt := mt st; index := S (index st) |}).

(** [random.random()]:
    [uint32_t a=genrand_uint32(self)>>5, b=genrand_uint32(self)>>6;]
    [return (a*67108864.0+b)*(1.0/9007199254740992.0);]
    The 53-bit numerator [a*67108864+b] is returned; the float is that
    numerator over 2^53, exactly. *)
Definition random_numerator (st : state) : Z * state :=
  let '(a, st) := genrand_uint32 st in
  let '(b, st) := genrand_uint32 st in
  (Z.shiftr a 5 * 67108864 + Z.shiftr b 6, st).

(** [[random.random() for _ in range(n)]], as numerators. *)
Fixpoint random_numerators (n : nat) (st : state) : list Z * state :=
  match n with
  | O => ([], st)
  | S n' =>
      let '(x, st) := random_numerator st in
      let '(xs, st) := random_numerators n' st in
      (x :: xs, st)
  end.
End MT19937.

(** ** The T-test notebook *)

(** The data cells of the T-test notebook. *)
Module Data.
Section Cells.
Context {F : Type} {N : Number F}.

(** The float [random.random()] returns for a 53-bit numerator. *)
Definition random_float (numerator : Z) : F :=
  mul (of_Z numerator) (ratio 1 9007199254740992).

(** [random.seed(a)] followed by [n] calls of [random.random()]. *)
Definition randoms (a : Z) (n : nat) : list F :=
  map random_float (fst (MT19937.random_numerators n (MT19937.seed a))).

(** [random.seed(42)]
    [n = 15]
    [samples = [random.random() for _ in range(n)]  # samples from U[0,1)] *)
Definition samples : list F := randoms 42 15.

(** [random.seed(43)]
    [n_1 = 11]
    [n_2 = 16]
    [samples_1 = [random.random() for _ in range(n_1)]]
    [samples_2 = [random.random()*2 - 0.5 for _ in range(n_2)]] *)
Definition welch_samples_1 : list F := firstn 11 (randoms 43 27).
Definition welch_samples_2 : list F :=
  map (fun x => sub (mul x (of_Z 2)) (ratio 1 2)) (skipn 11 (randoms 43 27)).

(** [random.seed(43)] ...
    [samples_2 = [random.random() for _ in range(n_2)]] *)
Definition pooled_samples_1 : list F := firstn 11 (randoms 43 27).
Definition pooled_samples_2 : list F := skipn 11 (randoms 43 27).

(** [random.seed(44)]
    [n = 15]
    [results_1 = [int(random.random() * 100) for _ in range(n)]]
    [results_2 = [int(random.random() * 100) for _ in range(n)]] *)
Definition results_1 : list F :=
  map (fun x => of_Z (py_int (mul x (of_Z 100)))) (firstn 15 (randoms 44 30)).
Definition results_2 : list F :=
  map (fun x => of_Z (py_int (mul x (of_Z 100)))) (skipn 15 (randoms 44 30)).
End Cells.
End Data.

(** The p-value cells.  [sf] is the survival function of the reference
    distribution with its shape parameter already supplied:
    [scipy.stats.norm.sf] or [lambda x: scipy.stats.t.sf(x, df=dof)]. *)
Module PValue.
Section Cells.
Context {F : Type} {N : Number F}.
Variable sf : F -> F.

(** [p_value_1tail = scipy.stats.norm.sf(abs(z_score))]
    [p_value_1tail = scipy.stats.t.sf(abs(t_score), df=n-1)] *)
Definition p_value_1tail (score : F) : F := sf (absval score).

(** [p_value_2tail = scipy.stats.norm.sf(abs(z_score)) * 2]
    [p_value_2tail = scipy.stats.t.sf(abs(t_score), df=dof) * 2] *)
Definition p_value_2tail (score : F) : F := mul (sf (absval score)) (of_Z 2).

(** [p_value = 1.0 - scipy.stats.chi2.cdf(chi_2, 2)], with [cdf] the
    distribution function for the cell's degrees of freedom. *)
Definition p_value (cdf : F -> F) (chi_2 : F) : F := sub (of_Z 1) (cdf chi_2).
End Cells.
End PValue.

Module ZTest.
Section Cells.
Context {F : Type} {N : Number F}.

(** [z_score = (7.1 - 10)/3], for a sample [x] and a candidate
    distribution N(mu, sigma^2). *)
Definition z_score (x mu sigma : F) : outcome F := truediv (sub x mu) sigma.
End Cells.
End ZTest.

(** The sample mean and the sample variance, as every T-test cell writes
    them out. *)
Section SampleStatistics.
Context {F : Type} {N : Number F}.

(** [xbar = sum(samples) / n] *)
Definition sample_mean (samples : list F) : outcome F :=
  truediv (py_sum samples) (of_Z (len samples)).

(** [sum([(x-xbar)**2 for x in samples])/(n-1)] *)
Definition sample_var (samples : list F) (xbar : F) : outcome F :=
  truediv (py_sum (map (fun x => pow2 (sub x xbar)) samples))
          (of_Z (len samples - 1)).
End SampleStatistics.

Module OneSample.
Section Cells.
Context {F : Type} {N : Number F}.

(** [xbar = sum(samples) / n]
    [s = math.sqrt(sum([(x-xbar)**2 for x in samples])/(n-1))]
    [t_score = (xbar - 0.1) / (s / math.sqrt(n))]
    with [n = len(samples)] and the hypothesised mean [mu] for [0.1]. *)
Definition xbar (samples : list F) : outcome F := sample_mean samples.

Definition s (samples : list F) (xbar : F) : outcome F :=
  v <- sample_var samples xbar ;;
  math_sqrt v.

Definition t_score (samples : list F) (mu : F) : outcome F :=
  xbar <- xbar samples ;;
  s <- s samples xbar ;;
  root_n <- math_sqrt (of_Z (len samples)) ;;
  std_err <- truediv s root_n ;;
  truediv (sub xbar mu) std_err.

(** [df=n-1] *)
Definition dof (samples : list F) : Z := len samples - 1.

(** [p_value_1tail = scipy.stats.t.sf(abs(t_score), df=n-1)], with
    [t_sf x df] for [scipy.stats.t.sf(x, df=df)]. *)
Definition p_value_1tail (t_sf : F -> F -> F) (samples : list F) (mu : F)
  : outcome F :=
  t_score <- t_score samples mu ;;
  Ok (PValue.p_value_1tail (fun x => t_sf x (of_Z (dof samples))) t_score).
End Cells.
End OneSample.

Module Welch.
Section Cells.
Context {F : Type} {N : Number F}.

(** [xbar_1 = sum(samples_1)/n_1]
    [s_1_sqr = sum([(x-xbar_1)**2 for x in samples_1])/(n_1-1)] *)
Definition s_sqr (samples : list F) : outcome F :=
  xbar <- sample_mean samples ;;
  sample_var samples xbar.

(** [t_score = (xbar_1 - xbar_2) / math.sqrt( s_1_sqr/n_1 + s_2_sqr/n_2 )] *)
Definition t_score (samples_1 samples_2 : list F) : outcome F :=
  xbar_1 <- sample_mean samples_1 ;;
  xbar_2 <- sample_mean samples_2 ;;
  s_1_sqr <- sample_var samples_1 xbar_1 ;;
  s_2_sqr <- sample_var samples_2 xbar_2 ;;
  a <- truediv s_1_sqr (of_Z (len samples_1)) ;;
  b <- truediv s_2_sqr (of_Z (len samples_2)) ;;
  r <- math_sqrt (add a b) ;;
  truediv (sub xbar_1 xbar_2) r.

(** [def get_welchs_ttest_dof(s1sqr, s2sqr, n1, n2):]
    [    numerator = (s1sqr/n1 + s2sqr/n2) ** 2]
    [    denominator = (s1sqr/n1) ** 2 / (n1 - 1) + (s2sqr/n2) ** 2 / (n2 - 1)]
    [    return numerator / denominator] *)
Definition get_welchs_ttest_dof (s1sqr s2sqr : F) (n1 n2 : Z) : outcome F :=
  a <- truediv s1sqr (of_Z n1) ;;
  b <- truediv s2sqr (of_Z n2) ;;
  let numerator := pow2 (add a b) in
  a' <- truediv s1sqr (of_Z n1) ;;
  p <- truediv (pow2 a') (of_Z (n1 - 1)) ;;
  b' <- truediv s2sqr (of_Z n2) ;;
  q <- truediv (pow2 b') (of_Z (n2 - 1)) ;;
  let denominator := add p q in
  truediv numerator denominator.

(** [dof = get_welchs_ttest_dof(s_1_sqr, s_2_sqr, n_1, n_2)] *)
Definition dof (samples_1 samples_2 : list F) : outcome F :=
  s_1_sqr <- s_sqr samples_1 ;;
  s_2_sqr <- s_sqr samples_2 ;;
  get_welchs_ttest_dof s_1_sqr s_2_sqr (len samples_1) (len samples_2).

(** [p_value_2tail = scipy.stats.t.sf(abs(t_score), df=dof) * 2] *)
Definition p_value_2tail (t_sf : F -> F -> F) (samples_1 samples_2 : list F)
  : outcome F :=
  t_score <- t_score samples_1 samples_2 ;;
  dof <- dof samples_1 samples_2 ;;
  Ok (PValue.p_value_2tail (fun x => t_sf x dof) t_score).
End Cells.
End Welch.

Module Pooled.
Section Cells.
Context {F : Type} {N : Number F}.

(** [dof = n_1 + n_2 - 2] *)
Definition dof (samples_1 samples_2 : list F) : Z :=
  len samples_1 + len samples_2 - 2.

(** [s_pooled = math.sqrt( ((n_1-1)*s_1_sqr + (n_2-1)*s_2_sqr)/dof)] *)
Definition s_pooled (s_1_sqr s_2_sqr : F) (n_1 n_2 : Z) : outcome F :=
  v <- truediv (add (mul (of_Z (n_1 - 1)) s_1_sqr) (mul (of_Z (n_2 - 1)) s_2_sqr))
               (of_Z (n_1 + n_2 - 2)) ;;
  math_sqrt v.

(** [t_score = (xbar_1 - xbar_2) / (s_pooled * math.sqrt(1.0/n_1 + 1.0/n_2))] *)
Definition t_score (samples_1 samples_2 : list F) : outcome F :=
  let n_1 := len samples_1 in
  let n_2 := len samples_2 in
  xbar_1 <- sample_mean samples_1 ;;
  xbar_2 <- sample_mean samples_2 ;;
  s_1_sqr <- sample_var samples_1 xbar_1 ;;
  s_2_sqr <- sample_var samples_2 xbar_2 ;;
  s_pooled <- s_pooled s_1_sqr s_2_sqr n_1 n_2 ;;
  a <- truediv (of_Z 1) (of_Z n_1) ;;
  b <- truediv (of_Z 1) (of_Z n_2) ;;
  r <- math_sqrt (add a b) ;;
  truediv (sub xbar_1 xbar_2) (mul s_pooled r).

(** [p_value_2tail = scipy.stats.t.sf(abs(t_score), df=dof) * 2] *)
Definition p_value_2tail (t_sf : F -> F -> F) (samples_1 samples_2 : list F)
  : outcome F :=
  t_score <- t_score samples_1 samples_2 ;;
  Ok (PValue.p_value_2tail
        (fun x => t_sf x (of_Z (dof samples_1 samples_2))) t_score).
End Cells.
End Pooled.

Module Paired.
Section Cells.
Context {F : Type} {N : Number F}.

(** [np.array(a) - np.array(b)] on one-dimensional arrays: entry by
    entry for equal lengths, an array of length 1 is broadcast, anything
    else cannot be broadcast together. *)
Definition np_array_sub (a b : list F) : outcome (list F) :=
  if Nat.eqb (length a) (length b) then Ok (series_sub a b)
  else match a, b with
       | _, [y] => Ok (map (fun x => sub x y) a)
       | [x], _ => Ok (map (fun y => sub x y) b)
       | _, _ => Raise ValueError
       end.

(** [np.std(a, ddof=1)]: the mean, the squared deviations from it, their
    sum over [max(n - ddof, 0)], and the square root; numpy divides, so
    an empty divisor gives nan. *)
Definition np_std_ddof1 (a : list F) : outcome F :=
  arrmean <- np_true_divide (np_sum a) (of_Z (len a)) ;;
  let x := map (fun v => pow2 (sub v arrmean)) a in
  ret <- np_true_divide (np_sum x) (of_Z (Z.max (len a - 1) 0)) ;;
  np_sqrt ret.

(** [deltas = np.array(results_2) - np.array(results_1)] *)
Definition deltas (results_1 results_2 : list F) : outcome (list F) :=
  np_array_sub results_2 results_1.

(** [xbar = sum(deltas)/n]
    [s = np.std(deltas, ddof=1)]
    [t_score = (xbar - mu0)/(s/math.sqrt(n))]
    with [n] the common length of the two lists of results.  [sum] of an
    empty array is the int 0, which Python divides; otherwise the sum is a
    numpy scalar and numpy divides. *)
Definition t_score (results_1 results_2 : list F) (mu0 : F) : outcome F :=
  let n := len results_1 in
  deltas <- deltas results_1 results_2 ;;
  xbar <- match deltas with
          | [] => truediv (py_sum deltas) (of_Z n)
          | _ => np_true_divide (py_sum deltas) (of_Z n)
          end ;;
  s <- np_std_ddof1 deltas ;;
  root_n <- math_sqrt (of_Z n) ;;
  std_err <- np_true_divide s root_n ;;
  np_true_divide (sub xbar mu0) std_err.

(** [df=n-1] *)
Definition dof (results_1 : list F) : Z := len results_1 - 1.

(** [p_value_1tail = scipy.stats.t.sf(abs(t_score), df=n-1)] *)
Definition p_value_1tail (t_sf : F -> F -> F) (results_1 results_2 : list F)
  (mu0 : F) : outcome F :=
  t_score <- t_score results_1 results_2 mu0 ;;
  Ok (PValue.p_value_1tail (fun x => t_sf x (of_Z (dof results_1))) t_score).

End Cells.
End Paired.

(** * The quantities of the specification *)

Local Open Scope R_scope.

(** The sum of a sequence, as the specification writes it. *)
Fixpoint Rsum (xs : list R) : R :=
  match xs with
  | [] => 0
  | x :: xs' => x + Rsum xs'
  end.

(** Pearson's statistic: the sum over i of (O_i - E_i)^2 / E_i. *)
Fixpoint pearson (O E : list R) : R :=
  match O, E with
  | o :: O', e :: E' => (o - e) ^ 2 / e + pearson O' E'
  | _, _ => 0
  end.

(** The specification's quantities for an R-by-C table of observed counts. *)
Definition rectangular (df : list (list R)) (C : nat) : Prop :=
  Forall (fun row => length row = C) df.
Definition row_total (df : list (list R)) (i : nat) : R := Rsum (nth i df []).
Definition col_total (df : list (list R)) (j : nat) : R :=
  Rsum (map (fun row => nth j row 0) df).
Definition grand_total (df : list (list R)) : R := Rsum (map Rsum df).

(** The sample mean and the sample variance with its n-1 denominator, as the
    specification's data model defines them. *)
Definition mean (xs : list R) : R := Rsum xs / INR (length xs).
Definition variance (xs : list R) : R :=
  Rsum (map (fun x => (x - mean xs) ^ 2) xs) / (INR (length xs) - 1).

(** The Welch-Satterthwaite degrees of freedom of the specification. *)
Definition welch_satterthwaite (v1 v2 n1 n2 : R) : R :=
  (v1 / n1 + v2 / n2) ^ 2
  / ((v1 / n1) ^ 2 / (n1 - 1) + (v2 / n2) ^ 2 / (n2 - 1)).

(** The squared standard error of the difference of the two means. *)
Definition welch_se2 (s1 s2 : list R) : R :=
  variance s1 / INR (length s1) + variance s2 / INR (length s2).

(** The pooled variance of the specification. *)
Definition pooled_variance (v1 v2 n1 n2 : R) : R :=
  ((n1 - 1) * v1 + (n2 - 1) * v2) / (n1 + n2 - 2).

(** * The reference distributions *)

(** [scipy.stats] is not part of the repository: the notebooks call it as
    an oracle for the distribution functions, and the specification treats it
    as a black box.  What a p-value cell needs of the oracle is stated here,
    and the two laws the notebooks use with an even number of degrees of
    freedom are written out. *)

(** A survival function x |-> P(X > x). *)
Record survival_function (sf : R -> R) : Prop := {
  sf_range : forall x, 0 <= sf x <= 1;
  sf_antitone : forall x y, x <= y -> sf y <= sf x
}.

(** The law is continuous and symmetric about 0, as the standard normal
    and Student's t are: P(X > -x) = 1 - P(X > x). *)
Definition symmetric_about_zero (sf : R -> R) : Prop :=
  forall x, sf (- x) = 1 - sf x.

(** A distribution function x |-> P(X <= x). *)
Record distribution_function (cdf : R -> R) : Prop := {
  cdf_range : forall x, 0 <= cdf x <= 1;
  cdf_monotone : forall x y, x <= y -> cdf x <= cdf y
}.

(** Modelled from the spec: [scipy.stats.chi2.cdf(x, 2)] is missing, the
    "chi-squared CDF" of the specification's external distribution library.
    For 2 degrees of freedom the chi-squared law has the distribution
    function 1 - exp(-x/2) on the positive half-line. *)
Definition chi2_cdf_2 (x : R) : R :=
  if Rle_dec x 0 then 0 else 1 - exp (- x / 2).

(** Polynomials by their coefficients, lowest degree first, and their
    derivatives. *)
Fixpoint horner (cs : list R) (x : R) : R :=
  match cs with
  | [] => 0
  | c :: cs' => c + x * horner cs' x
  end.

Fixpoint horner_deriv (cs : list R) (x : R) : R :=
  match cs with
  | [] => 0
  | _ :: cs' => horner cs' x + x * horner_deriv cs' x
  end.

(** The density of Student's t law with 14 degrees of freedom:
    Gamma(15/2) / (sqrt(14 pi) Gamma(7)) * (1 + x^2/14)^(-15/2), where
    Gamma(15/2) / (sqrt(pi) Gamma(7)) = 3003/2048. *)
Definition t_pdf_14 (x : R) : R :=
  3003 / 2048 / sqrt 14 / (sqrt (1 + x ^ 2 / 14)) ^ 15.

(** With s = x / sqrt(14 + x^2) the integral of the density from 0 to x is
    3003/2048 times the integral of (1 - r^2)^6 from 0 to s, a polynomial in
    s: [t_Q14 s / 2]. *)
Definition t_Q14 (s : R) : R :=
  3003 / 1024 *
  (s - 2 * s ^ 3 + 3 * s ^ 5 - 20 / 7 * s ^ 7 + 5 / 3 * s ^ 9
   - 6 / 11 * s ^ 11 + 1 / 13 * s ^ 13).

Definition t_Q14_coefficients : list R :=
  map (Rmult (3003 / 1024))
      [0; 1; 0; -2; 0; 3; 0; - (20 / 7); 0; 5 / 3; 0; - (6 / 11); 0; 1 / 13].

Definition t_sine (x : R) : R := x / sqrt (14 + x ^ 2).

(** Modelled from the spec: [scipy.stats.t.sf(x, df=14)] is missing, the
    survival function of "Student's t" in the specification's external
    distribution library.  It is 1/2 minus the integral of the density from
    0 to x: [t_sf_14_zero], [t_sf_14_derivative] and [t_sf_14_tail] below
    check the value at 0, the slope and the limit at infinity. *)
Definition t_sf_14 (x : R) : R := 1 / 2 - t_Q14 (t_sine x) / 2.

(** The t-score of the notebook's sample of fifteen draws, in exact
    arithmetic: (mean - 0.1) / (s / sqrt(15)) with the mean and the variance
    of the draws written out. *)
Definition samples_t : R :=
  (50493792219745637 / 135107988821114880 - 1 / 10)
  / (sqrt (180775879109374719271845724886167 / 2129653008383425394514461385031680)
     / sqrt 15).

(** * Further notions *)


(** A sample without two different values: empty, a single value, or one
    value repeated. *)
Definition constant_sample (xs : list R) : Prop :=
  Forall (fun x => x = hd 0 xs) xs.

(** * Exact arithmetic: what the cells compute *)

(** ** Sums and the outcome monad over the reals *)

Lemma fold_left_Rplus (xs : list R) (a : R) :
  fold_left Rplus xs a = a + Rsum xs.
Proof.
  revert a; induction xs as [|x xs IH]; intros a; simpl.
  - lra.
  - rewrite IH. lra.
Qed.

Lemma Rsum_firstn_skipn (k : nat) (xs : list R) :
  Rsum (firstn k xs) + Rsum (skipn k xs) = Rsum xs.
Proof.
  rewrite <- (firstn_skipn k xs) at 3.
  induction (firstn k xs) as [|x l IH]; simpl; [lra | rewrite <- IH; lra].
Qed.

Lemma Rsum_zip_add (r ys : list R) :
  length r = length ys ->
  Rsum (map (fun p => add (fst p) (snd p)) (combine r ys)) = Rsum r + Rsum ys.
Proof.
  revert ys. induction r as [|x r IH]; intros [|y ys] H; try discriminate.
  - simpl. lra.
  - cbn [combine map Rsum fst snd add R_Number]. rewrite IH by (simpl in H; lia).
    lra.
Qed.

Lemma accumulate8_R (blocks : nat) (r xs : list R) :
  length r = 8%nat -> (8 * blocks <= length xs)%nat ->
  length (fst (accumulate8 r xs blocks)) = 8%nat /\
  Rsum (fst (accumulate8 r xs blocks)) + Rsum (snd (accumulate8 r xs blocks))
  = Rsum r + Rsum xs.
Proof.
  revert r xs. induction blocks as [|blocks IH]; intros r xs Hr Hxs.
  - simpl. split; [assumption | reflexivity].
  - cbn [accumulate8].
    assert (Hf : length (firstn 8 xs) = 8%nat) by (rewrite length_firstn; lia).
    destruct (IH (map (fun p => add (fst p) (snd p)) (combine r (firstn 8 xs)))
                 (skipn 8 xs)) as [Hlen Hsum].
    + rewrite length_map, length_combine, Hr, Hf. reflexivity.
    + rewrite length_skipn. lia.
    + split; [assumption|]. rewrite Hsum, Rsum_zip_add by congruence.
      rewrite <- (Rsum_firstn_skipn 8 xs). lra.
Qed.

Lemma pairwise_block_R (xs : list R) :
  (8 <= length xs)%nat -> pairwise_block xs = Rsum xs.
Proof.
  intros Hn. unfold pairwise_block.
  assert (Hf : length (firstn 8 xs) = 8%nat) by (rewrite length_firstn; lia).
  destruct (accumulate8_R (length xs / 8 - 1) (firstn 8 xs) (skipn 8 xs) Hf)
    as [Hlen Hsum].
  { rewrite length_skipn.
    pose proof (Nat.div_mod_eq (length xs) 8). lia. }
  destruct (accumulate8 (firstn 8 xs) (skipn 8 xs) (length xs / 8 - 1))
    as [r rest]. cbn [fst snd] in *.
  rewrite Rsum_firstn_skipn in Hsum.
  destruct r as [|r0 [|r1 [|r2 [|r3 [|r4 [|r5 [|r6 [|r7 [|r8 r]]]]]]]]];
    try discriminate.
  rewrite fold_left_Rplus. cbn [add R_Number]. simpl in Hsum. lra.
Qed.

Lemma pairwise_sum_R (fuel : nat) (xs : list R) :
  (length xs <= fuel)%nat -> pairwise_sum fuel xs = Rsum xs.
Proof.
  revert xs. induction fuel as [|fuel IH]; intros xs Hfuel.
  - destruct xs; [|simpl in Hfuel; lia]. simpl. reflexivity.
  - cbn [pairwise_sum].
    destruct (Nat.ltb (length xs) 8) eqn:H8.
    + rewrite fold_left_Rplus. cbn [of_Z R_Number]. lra.
    + apply Nat.ltb_ge in H8.
      destruct (Nat.leb (length xs) 128) eqn:H128.
      * apply pairwise_block_R. assumption.
      * apply Nat.leb_gt in H128.
        pose proof (Nat.div_mod_eq (length xs) 2) as Hd2.
        pose proof (Nat.mod_upper_bound (length xs) 2) as Hm2.
        pose proof (Nat.mod_upper_bound (length xs / 2) 8) as Hm8.
        rewrite !IH.
        -- cbn [add R_Number]. apply Rsum_firstn_skipn.
        -- rewrite length_skipn. lia.
        -- rewrite length_firstn. lia.
Qed.

Lemma np_sum_R (xs : list R) : np_sum xs = Rsum xs.
Proof.
  unfold np_sum. rewrite pairwise_sum_R by lia. cbn [add of_Z R_Number]. lra.
Qed.

Lemma py_sum_R (xs : list R) : py_sum xs = Rsum xs.
Proof. unfold py_sum; simpl. rewrite fold_left_Rplus. lra. Qed.

Lemma Rsum_app (xs ys : list R) : Rsum (xs ++ ys) = Rsum xs + Rsum ys.
Proof. induction xs as [|x xs IH]; simpl; [lra | rewrite IH; lra]. Qed.


Lemma Rsum_pos (xs : list R) :
  Forall (fun x => 0 < x) xs -> xs <> [] -> 0 < Rsum xs.
Proof.
  induction 1 as [|x xs Hx Hxs IH]; intros Hne; [congruence|].
  simpl. destruct xs as [|y ys]; simpl in *.
  - lra.
  - assert (0 < y + Rsum ys) by (apply IH; discriminate). lra.
Qed.

Lemma Rsum_nonneg (xs : list R) :
  Forall (fun x => 0 <= x) xs -> 0 <= Rsum xs.
Proof. induction 1; simpl; lra. Qed.

Lemma truediv_R_ok (x y : R) : y <> 0 -> truediv x y = Ok (x / y).
Proof. intros Hy; simpl. destruct (Req_dec_T y 0); [contradiction | reflexivity]. Qed.

Lemma truediv_R_zero (x : R) : truediv x 0 = Raise ZeroDivisionError.
Proof. simpl. destruct (Req_dec_T 0 0); [reflexivity | contradiction]. Qed.

Lemma np_true_divide_R_ok (x y : R) : y <> 0 -> np_true_divide x y = Ok (x / y).
Proof. intros Hy; simpl. destruct (Req_dec_T y 0); [contradiction | reflexivity]. Qed.

Lemma np_true_divide_R_zero (x : R) : np_true_divide x 0 = NotFinite.
Proof. simpl. destruct (Req_dec_T 0 0); [reflexivity | contradiction]. Qed.

Lemma math_sqrt_R_ok (x : R) : 0 <= x -> math_sqrt x = Ok (sqrt x).
Proof. intros Hx; simpl. destruct (Rlt_dec x 0); [lra | reflexivity]. Qed.


Lemma mapM_ok {A B : Type} (f : A -> outcome B) (g : A -> B) (l : list A) :
  (forall a, In a l -> f a = Ok (g a)) -> mapM f l = Ok (map g l).
Proof.
  induction l as [|a l IH]; intros H; simpl; [reflexivity|].
  rewrite (H a (or_introl eq_refl)); simpl.
  rewrite IH by (intros; apply H; right; assumption). reflexivity.
Qed.

(** One nan or inf among the entries makes the whole column non-finite,
    provided no entry raises. *)
Lemma mapM_not_finite {A B : Type} (f : A -> outcome B) (l : list A) :
  (forall a, In a l -> forall e, f a <> Raise e) ->
  (exists a, In a l /\ f a = NotFinite) ->
  mapM f l = NotFinite.
Proof.
  induction l as [|a l IH]; intros Hno [b [Hb Hf]]; [destruct Hb|].
  simpl. destruct (f a) as [v| |e] eqn:Ea; simpl.
  - destruct Hb as [->|Hb]; [congruence|].
    rewrite IH; [reflexivity | intros; apply Hno; right; assumption | eauto].
  - reflexivity.
  - exfalso. apply (Hno a (or_introl eq_refl) e). assumption.
Qed.

(** ** Goodness of fit *)

Lemma sq_div_nonneg (o e : R) : 0 < e -> 0 <= (o - e) ^ 2 / e.
Proof.
  intros He. unfold Rdiv. apply Rmult_le_pos.
  - apply pow2_ge_0.
  - left. apply Rinv_0_lt_compat. assumption.
Qed.

Lemma pearson_nonneg (O E : list R) :
  Forall (fun e => 0 < e) E -> 0 <= pearson O E.
Proof.
  intros HE; revert O; induction HE as [|e E He HE IH]; intros [|o O];
    cbn [pearson]; try lra.
  specialize (IH O). pose proof (sq_div_nonneg o e He). lra.
Qed.

(** The statistic cell on columns whose expected entries are non-zero. *)
Lemma gof_chi_2_ok (O E : list R) :
  Forall (fun e => e <> 0) E ->
  GoodnessOfFit.chi_2 O E = Ok (pearson O E).
Proof.
  intros HE. unfold GoodnessOfFit.chi_2.
  assert (H : exists terms,
             series_div (series_pow2 (series_sub O E)) E = Ok terms /\
             Rsum terms = pearson O E).
  { revert O; induction HE as [|e E He HE IH]; intros [|o O].
    - exists []; split; reflexivity.
    - exists []; split; reflexivity.
    - exists []; split; reflexivity.
    - destruct (IH O) as [terms [Hd Hs]].
      exists ((o - e) ^ 2 / e :: terms). split.
      + unfold series_div, series_pow2, series_sub in *. cbn [combine map mapM fst snd].
        rewrite np_true_divide_R_ok by assumption. cbn [bind].
        rewrite Hd. cbn [bind]. unfold pow2. cbn [mul sub R_Number].
        replace ((o - e) * (o - e) / e) with ((o - e) ^ 2 / e)
          by (field; assumption).
        reflexivity.
      + simpl. simpl in Hs. rewrite Hs. lra. }
  destruct H as [terms [Hd Hs]]. rewrite Hd. cbn [bind].
  rewrite np_sum_R, Hs. reflexivity.
Qed.


Lemma normed_ok (O E : list R) :
  Rsum E <> 0 ->
  GoodnessOfFit.expected_shirts_normed O E
  = Ok (map (fun e => e * (Rsum O / Rsum E)) E).
Proof.
  intros HE. unfold GoodnessOfFit.expected_shirts_normed, series_div_scalar,
    series_mul_scalar.
  rewrite !np_sum_R.
  rewrite (mapM_ok _ (fun x => x / Rsum E)).
  - rewrite map_map. f_equal. apply map_ext. intros e. cbn [mul R_Number].
    field. assumption.
  - intros a _. apply np_true_divide_R_ok. assumption.
Qed.





(** ** The contingency test *)

Lemma combine_map_snd {A B C : Type} (f : A -> B) (g : A -> B -> C) (l : list A) :
  map (fun p => g (fst p) (snd p)) (combine l (map f l)) = map (fun a => g a (f a)) l.
Proof. induction l as [|a l IH]; simpl; [reflexivity | rewrite IH; reflexivity]. Qed.

Lemma df_totals_rows (df : list (list R)) :
  Contingency.df_totals df
  = map (fun row => row ++ [Rsum row]) (df ++ [Contingency.sum_axis0 df]).
Proof.
  unfold Contingency.df_totals, Contingency.sum_axis1.
  rewrite (combine_map_snd np_sum (fun r s => r ++ [s])).
  apply map_ext. intros row. rewrite np_sum_R. reflexivity.
Qed.

Lemma rectangular_ncols (df : list (list R)) (C : nat) :
  rectangular df C -> df <> [] -> Contingency.ncols df = C.
Proof.
  intros H Hne. destruct df as [|row df]; [congruence|].
  inversion H; subst. reflexivity.
Qed.

Lemma sum_axis0_length (df : list (list R)) :
  length (Contingency.sum_axis0 df) = Contingency.ncols df.
Proof. unfold Contingency.sum_axis0. rewrite length_map, length_seq. reflexivity. Qed.

Lemma nth_map_seq {A : Type} (f : nat -> A) (n j : nat) (d : A) :
  (j < n)%nat -> nth j (map f (seq 0 n)) d = f j.
Proof.
  intros Hj.
  rewrite (nth_indep _ d (f 0%nat)) by (rewrite length_map, length_seq; lia).
  rewrite (map_nth f), seq_nth by lia. reflexivity.
Qed.

Lemma sum_axis0_nth (df : list (list R)) (j : nat) :
  (j < Contingency.ncols df)%nat ->
  nth j (Contingency.sum_axis0 df) 0 = col_total df j.
Proof.
  intros Hj. unfold Contingency.sum_axis0, col_total.
  rewrite nth_map_seq by assumption. rewrite np_sum_R. reflexivity.
Qed.

(** Adding up the column totals or the row totals gives the same grand
    total. *)
Lemma Rsum_seq_nth (row : list R) :
  Rsum (map (fun j => nth j row 0) (seq 0 (length row))) = Rsum row.
Proof.
  induction row as [|x row IH]; [reflexivity|].
  cbn [length seq map Rsum nth].
  rewrite <- seq_shift, map_map. cbn [nth]. rewrite IH. reflexivity.
Qed.

Lemma Rsum_map_plus {A : Type} (f g : A -> R) (l : list A) :
  Rsum (map (fun a => f a + g a) l) = Rsum (map f l) + Rsum (map g l).
Proof. induction l as [|a l IH]; simpl; [lra | rewrite IH; lra]. Qed.

Lemma Rsum_map_ext {A : Type} (f g : A -> R) (l : list A) :
  (forall a, In a l -> f a = g a) -> Rsum (map f l) = Rsum (map g l).
Proof. intros H. f_equal. apply map_ext_in. assumption. Qed.

Lemma col_totals_sum (df : list (list R)) (C : nat) :
  rectangular df C ->
  Rsum (map (col_total df) (seq 0 C)) = grand_total df.
Proof.
  unfold grand_total, col_total. induction 1 as [|row df Hrow Hdf IH].
  - simpl. induction (seq 0 C); simpl; [reflexivity | lra].
  - cbn [map Rsum].
    rewrite <- IH, <- (Rsum_seq_nth row), Hrow, <- Rsum_map_plus.
    reflexivity.
Qed.

Section TotalsFrame.
Variable df : list (list R).
Variable C : nat.
Hypothesis Hrect : rectangular df C.
Hypothesis Hne : df <> [].

Lemma df_totals_nrows : Contingency.nrows (Contingency.df_totals df) = S (length df).
Proof.
  unfold Contingency.nrows. rewrite df_totals_rows, length_map, length_app.
  simpl. lia.
Qed.

Lemma df_totals_ncols : Contingency.ncols (Contingency.df_totals df) = S C.
Proof.
  unfold Contingency.ncols. rewrite df_totals_rows.
  destruct df as [|row rest]; [congruence|].
  inversion Hrect; subst. simpl. rewrite length_app. simpl. lia.
Qed.

Lemma Total_row_is : Contingency.Total_row (Contingency.df_totals df) = length df.
Proof. unfold Contingency.Total_row. rewrite df_totals_nrows. lia. Qed.

Lemma Total_col_is : Contingency.Total_col (Contingency.df_totals df) = C.
Proof. unfold Contingency.Total_col. rewrite df_totals_ncols. lia. Qed.

Lemma row_length (i : nat) : (i < length df)%nat -> length (nth i df []) = C.
Proof.
  intros Hi. unfold rectangular in Hrect. rewrite Forall_forall in Hrect.
  apply Hrect. apply nth_In. assumption.
Qed.

Lemma totals_nth_row (i : nat) :
  (i < length df)%nat ->
  nth i (Contingency.df_totals df) [] = nth i df [] ++ [row_total df i].
Proof.
  intros Hi. rewrite df_totals_rows.
  rewrite (nth_indep _ [] ((fun row => row ++ [Rsum row]) []))
    by (rewrite length_map, length_app; simpl; lia).
  rewrite (map_nth (fun row => row ++ [Rsum row])).
  rewrite app_nth1 by assumption. reflexivity.
Qed.

Lemma totals_last_row :
  nth (length df) (Contingency.df_totals df) []
  = Contingency.sum_axis0 df ++ [Rsum (Contingency.sum_axis0 df)].
Proof.
  rewrite df_totals_rows.
  rewrite (nth_indep _ [] ((fun row => row ++ [Rsum row]) []))
    by (rewrite length_map, length_app; simpl; lia).
  rewrite (map_nth (fun row => row ++ [Rsum row])).
  rewrite app_nth2 by lia. rewrite Nat.sub_diag. reflexivity.
Qed.

Lemma ncols_is : Contingency.ncols df = C.
Proof. apply rectangular_ncols; assumption. Qed.

Lemma sum_axis0_sum : Rsum (Contingency.sum_axis0 df) = grand_total df.
Proof.
  rewrite <- (col_totals_sum df C Hrect).
  unfold Contingency.sum_axis0. rewrite ncols_is.
  apply Rsum_map_ext. intros j _. rewrite np_sum_R. reflexivity.
Qed.

Lemma loc_row_total (i : nat) :
  (i < length df)%nat ->
  Contingency.loc (Contingency.df_totals df) i C = row_total df i.
Proof.
  intros Hi. unfold Contingency.loc. rewrite totals_nth_row by assumption.
  rewrite app_nth2 by (rewrite row_length by assumption; lia).
  rewrite row_length by assumption. rewrite Nat.sub_diag. reflexivity.
Qed.

Lemma loc_col_total (j : nat) :
  (j < C)%nat ->
  Contingency.loc (Contingency.df_totals df) (length df) j = col_total df j.
Proof.
  intros Hj. unfold Contingency.loc. rewrite totals_last_row.
  rewrite app_nth1 by (rewrite sum_axis0_length, ncols_is; assumption).
  apply sum_axis0_nth. rewrite ncols_is. assumption.
Qed.

Lemma loc_grand_total :
  Contingency.loc (Contingency.df_totals df) (length df) C = grand_total df.
Proof.
  unfold Contingency.loc. rewrite totals_last_row.
  rewrite app_nth2 by (rewrite sum_axis0_length, ncols_is; lia).
  rewrite sum_axis0_length, ncols_is, Nat.sub_diag. simpl.
  apply sum_axis0_sum.
Qed.



End TotalsFrame.

(** The loops. *)
Lemma for_each_not_finite {A : Type} (ids : list nat) (body : nat -> A -> outcome A) :
  Contingency.for_each ids body NotFinite = NotFinite.
Proof. unfold Contingency.for_each. induction ids; simpl; auto. Qed.



Section ContingencyLoop.
Variable df : list (list R).
Variable C : nat.
Hypothesis Hrect : rectangular df C.
Hypothesis Hgrand : grand_total df <> 0.






End ContingencyLoop.

Lemma grand_total_rows (df : list (list R)) :
  grand_total df = Rsum (map (row_total df) (seq 0 (length df))).
Proof.
  unfold grand_total, row_total.
  rewrite <- (Rsum_seq_nth (map Rsum df)), length_map.
  apply Rsum_map_ext. intros i Hi. apply in_seq in Hi.
  rewrite (nth_indep _ 0 (Rsum [])) by (rewrite length_map; lia).
  apply (map_nth Rsum).
Qed.


Lemma Rsum_map_nonneg {A : Type} (f : A -> R) (l : list A) :
  (forall a, In a l -> 0 <= f a) -> 0 <= Rsum (map f l).
Proof.
  intros H. apply Rsum_nonneg. apply Forall_forall. intros x Hx.
  apply in_map_iff in Hx. destruct Hx as [a [<- Ha]]. apply H. assumption.
Qed.




(** ** Sample statistics *)

Lemma len_R (xs : list R) : IZR (len xs) = INR (length xs).
Proof. unfold len. symmetry. apply INR_IZR_INZ. Qed.

Lemma len_pred_R (xs : list R) : IZR (len xs - 1) = INR (length xs) - 1.
Proof. rewrite minus_IZR, len_R. reflexivity. Qed.

Lemma INR_length_pos (xs : list R) : xs <> [] -> 0 < INR (length xs).
Proof.
  intros H. destruct xs; [congruence|]. apply lt_0_INR. simpl. lia.
Qed.

Lemma INR_length_ge_2 (xs : list R) : (2 <= length xs)%nat -> 2 <= INR (length xs).
Proof. intros H. apply le_INR in H. simpl in H. lra. Qed.

Lemma sample_mean_ok (xs : list R) :
  xs <> [] -> sample_mean xs = Ok (mean xs).
Proof.
  intros H. unfold sample_mean. cbn [of_Z R_Number].
  rewrite py_sum_R, len_R.
  rewrite truediv_R_ok by (pose proof (INR_length_pos xs H); lra).
  reflexivity.
Qed.

Lemma sample_mean_empty : sample_mean (@nil R) = Raise ZeroDivisionError.
Proof. unfold sample_mean. apply truediv_R_zero. Qed.

Lemma sq_sum_eq (xs : list R) (m : R) :
  py_sum (map (fun x => pow2 (sub x m)) xs) = Rsum (map (fun x => (x - m) ^ 2) xs).
Proof.
  rewrite py_sum_R. apply Rsum_map_ext. intros x _.
  unfold pow2. cbn [mul sub R_Number]. ring.
Qed.

Lemma sample_var_ok (xs : list R) :
  (2 <= length xs)%nat -> sample_var xs (mean xs) = Ok (variance xs).
Proof.
  intros H. unfold sample_var. cbn [of_Z R_Number].
  rewrite sq_sum_eq, len_pred_R.
  rewrite truediv_R_ok by (pose proof (INR_length_ge_2 xs H); lra).
  reflexivity.
Qed.

Lemma sample_var_singleton (x m : R) :
  sample_var [x] m = Raise ZeroDivisionError.
Proof. unfold sample_var. cbn [len length Z.of_nat]. apply truediv_R_zero. Qed.

Lemma sq_dev_nonneg (xs : list R) (m : R) :
  0 <= Rsum (map (fun x => (x - m) ^ 2) xs).
Proof. apply Rsum_map_nonneg. intros x _. apply pow2_ge_0. Qed.

Lemma variance_nonneg (xs : list R) : (2 <= length xs)%nat -> 0 <= variance xs.
Proof.
  intros H. unfold variance, Rdiv. apply Rmult_le_pos.
  - apply sq_dev_nonneg.
  - left. apply Rinv_0_lt_compat. pose proof (INR_length_ge_2 xs H). lra.
Qed.

Lemma sqrt_INR_length_pos (xs : list R) : xs <> [] -> 0 < sqrt (INR (length xs)).
Proof. intros H. apply sqrt_lt_R0. apply INR_length_pos. assumption. Qed.

Lemma nonempty_of_length (xs : list R) : (2 <= length xs)%nat -> xs <> [].
Proof. intros H ->. simpl in H. lia. Qed.

(** ** The one-sample T-test *)

Lemma one_sample_t_score_cases (samples : list R) (mu : R) :
  (2 <= length samples)%nat ->
  (variance samples <> 0 ->
   OneSample.t_score samples mu
   = Ok ((mean samples - mu)
         / (sqrt (variance samples) / sqrt (INR (length samples))))) /\
  (variance samples = 0 ->
   OneSample.t_score samples mu = Raise ZeroDivisionError).
Proof.
  intros Hn. pose proof (nonempty_of_length samples Hn) as Hne.
  pose proof (variance_nonneg samples Hn) as Hv.
  pose proof (sqrt_INR_length_pos samples Hne) as Hrn.
  unfold OneSample.t_score, OneSample.xbar, OneSample.s.
  rewrite sample_mean_ok by assumption. cbn [bind].
  rewrite sample_var_ok by assumption. cbn [bind].
  rewrite math_sqrt_R_ok by assumption. cbn [bind].
  cbn [of_Z R_Number]. rewrite len_R.
  rewrite math_sqrt_R_ok by (left; apply INR_length_pos; assumption). cbn [bind].
  rewrite truediv_R_ok by lra. cbn [bind]. split.
  - intros Hnz. rewrite truediv_R_ok; [reflexivity|].
    assert (0 < sqrt (variance samples)) by (apply sqrt_lt_R0; lra).
    unfold Rdiv. apply Rmult_integral_contrapositive_currified;
      [lra | apply Rinv_neq_0_compat; lra].
  - intros Hz. rewrite Hz, sqrt_0.
    replace (0 / sqrt (INR (length samples))) with 0 by (unfold Rdiv; ring).
    apply truediv_R_zero.
Qed.

Lemma Rsum_constant (xs : list R) (c : R) :
  Forall (fun x => x = c) xs -> Rsum xs = INR (length xs) * c.
Proof.
  induction 1 as [|x xs Hx _ IH].
  - simpl. lra.
  - cbn [Rsum length]. rewrite S_INR, IH, Hx. lra.
Qed.

Lemma mean_constant (xs : list R) (c : R) :
  Forall (fun x => x = c) xs -> xs <> [] -> mean xs = c.
Proof.
  intros Hc Hne. unfold mean. rewrite (Rsum_constant xs c Hc).
  field. pose proof (INR_length_pos xs Hne). lra.
Qed.

Lemma variance_constant (xs : list R) (c : R) :
  Forall (fun x => x = c) xs -> (2 <= length xs)%nat -> variance xs = 0.
Proof.
  intros Hc Hn. unfold variance.
  rewrite (mean_constant xs c Hc (nonempty_of_length xs Hn)).
  replace (Rsum (map (fun x => (x - c) ^ 2) xs)) with 0; [unfold Rdiv; ring|].
  clear Hn. induction Hc as [|x xs Hx _ IH]; [reflexivity|].
  cbn [map Rsum]. rewrite <- IH, Hx. ring.
Qed.

(** A constant sample never gets a t-score: the divisions by [n], by
    [n - 1] or by [s / sqrt(n)] raise. *)
Lemma one_sample_constant_raises (samples : list R) (c mu : R) :
  Forall (fun x => x = c) samples ->
  OneSample.t_score samples mu = Raise ZeroDivisionError.
Proof.
  intros Hc. destruct samples as [|x [|y rest]].
  - unfold OneSample.t_score, OneSample.xbar. rewrite sample_mean_empty. reflexivity.
  - unfold OneSample.t_score, OneSample.xbar, OneSample.s.
    rewrite sample_mean_ok by discriminate. cbn [bind].
    rewrite sample_var_singleton. reflexivity.
  - apply one_sample_t_score_cases; [simpl; lia|].
    apply (variance_constant _ c); [assumption | simpl; lia].
Qed.




(** The one-sample cell on a sample of n >= 2 values: the mean, the root of
    the variance, the t-score or the error, and the degrees of freedom. *)
Lemma one_sample_t_general (samples : list R) (mu : R) :
  (2 <= length samples)%nat ->
  OneSample.xbar samples = Ok (mean samples) /\
  OneSample.s samples (mean samples) = Ok (sqrt (variance samples)) /\
  (variance samples <> 0 ->
   OneSample.t_score samples mu
   = Ok ((mean samples - mu)
         / (sqrt (variance samples) / sqrt (INR (length samples))))) /\
  (variance samples = 0 ->
   OneSample.t_score samples mu = Raise ZeroDivisionError) /\
  OneSample.dof samples = (Z.of_nat (length samples) - 1)%Z.
Proof.
  intros Hn. pose proof (nonempty_of_length samples Hn) as Hne.
  split; [apply sample_mean_ok; assumption|].
  split.
  { unfold OneSample.s. rewrite sample_var_ok by assumption. cbn [bind].
    apply math_sqrt_R_ok. apply variance_nonneg. assumption. }
  split; [apply one_sample_t_score_cases; assumption|].
  split; [apply one_sample_t_score_cases; assumption|].
  reflexivity.
Qed.

(** ** Welch's T-test *)

Lemma div_nonneg (a b : R) : 0 <= a -> 0 < b -> 0 <= a / b.
Proof.
  intros Ha Hb. unfold Rdiv. apply Rmult_le_pos; [assumption|].
  left. apply Rinv_0_lt_compat. assumption.
Qed.

Lemma div_pos (a b : R) : 0 < a -> 0 < b -> 0 < a / b.
Proof.
  intros Ha Hb. unfold Rdiv. apply Rmult_lt_0_compat; [assumption|].
  apply Rinv_0_lt_compat. assumption.
Qed.

Lemma welch_se2_nonneg (s1 s2 : list R) :
  (2 <= length s1)%nat -> (2 <= length s2)%nat -> 0 <= welch_se2 s1 s2.
Proof.
  intros H1 H2. unfold welch_se2.
  pose proof (div_nonneg _ _ (variance_nonneg s1 H1)
                (INR_length_pos s1 (nonempty_of_length s1 H1))).
  pose proof (div_nonneg _ _ (variance_nonneg s2 H2)
                (INR_length_pos s2 (nonempty_of_length s2 H2))).
  lra.
Qed.

Lemma welch_t_score_cases (s1 s2 : list R) :
  (2 <= length s1)%nat -> (2 <= length s2)%nat ->
  (welch_se2 s1 s2 <> 0 ->
   Welch.t_score s1 s2 = Ok ((mean s1 - mean s2) / sqrt (welch_se2 s1 s2))) /\
  (welch_se2 s1 s2 = 0 -> Welch.t_score s1 s2 = Raise ZeroDivisionError).
Proof.
  intros H1 H2.
  pose proof (nonempty_of_length s1 H1) as Hne1.
  pose proof (nonempty_of_length s2 H2) as Hne2.
  pose proof (INR_length_pos s1 Hne1) as Hn1.
  pose proof (INR_length_pos s2 Hne2) as Hn2.
  pose proof (welch_se2_nonneg s1 s2 H1 H2) as Hse.
  unfold Welch.t_score.
  rewrite !sample_mean_ok by assumption. cbn [bind].
  rewrite !sample_var_ok by assumption. cbn [bind].
  cbn [of_Z R_Number]. rewrite !len_R.
  rewrite !truediv_R_ok by lra. cbn [bind add sub R_Number].
  fold (welch_se2 s1 s2).
  rewrite math_sqrt_R_ok by assumption. cbn [bind]. split.
  - intros Hnz. rewrite truediv_R_ok; [reflexivity|].
    assert (0 < sqrt (welch_se2 s1 s2)) by (apply sqrt_lt_R0; lra). lra.
  - intros Hz. rewrite Hz, sqrt_0. apply truediv_R_zero.
Qed.

Lemma get_welchs_ttest_dof_cases (v1 v2 : R) (n1 n2 : Z) :
  (2 <= n1)%Z -> (2 <= n2)%Z -> 0 <= v1 -> 0 <= v2 ->
  (v1 / IZR n1 + v2 / IZR n2 <> 0 ->
   Welch.get_welchs_ttest_dof v1 v2 n1 n2
   = Ok (welch_satterthwaite v1 v2 (IZR n1) (IZR n2))) /\
  (v1 / IZR n1 + v2 / IZR n2 = 0 ->
   Welch.get_welchs_ttest_dof v1 v2 n1 n2 = Raise ZeroDivisionError).
Proof.
  intros H1 H2 Hv1 Hv2.
  assert (Hn1 : 2 <= IZR n1) by (apply IZR_le in H1; exact H1).
  assert (Hn2 : 2 <= IZR n2) by (apply IZR_le in H2; exact H2).
  unfold Welch.get_welchs_ttest_dof. cbn [of_Z R_Number].
  rewrite !minus_IZR.
  rewrite !(truediv_R_ok v1), !(truediv_R_ok v2) by lra. cbn [bind].
  rewrite !truediv_R_ok by lra. cbn [bind].
  unfold pow2. cbn [mul add R_Number].
  set (a := v1 / IZR n1). set (b := v2 / IZR n2).
  assert (Ha : 0 <= a) by (apply div_nonneg; lra).
  assert (Hb : 0 <= b) by (apply div_nonneg; lra).
  assert (Hp : 0 <= a * a / (IZR n1 - 1)) by (apply div_nonneg; nra).
  assert (Hq : 0 <= b * b / (IZR n2 - 1)) by (apply div_nonneg; nra).
  split.
  - intros Hnz.
    assert (Hden : 0 < a * a / (IZR n1 - 1) + b * b / (IZR n2 - 1)).
    { destruct (Rle_lt_or_eq_dec 0 a Ha) as [Hapos | Ha0].
      - assert (0 < a * a / (IZR n1 - 1)) by (apply div_pos; nra). lra.
      - destruct (Rle_lt_or_eq_dec 0 b Hb) as [Hbpos | Hb0].
        + assert (0 < b * b / (IZR n2 - 1)) by (apply div_pos; nra). lra.
        + exfalso. apply Hnz. lra. }
    rewrite truediv_R_ok by (apply Rgt_not_eq; exact Hden).
    f_equal. unfold welch_satterthwaite.
    fold a b.
    replace ((a + b) ^ 2) with ((a + b) * (a + b)) by ring.
    replace (a ^ 2) with (a * a) by ring.
    replace (b ^ 2) with (b * b) by ring.
    reflexivity.
  - intros Hz. assert (a = 0) by lra. assert (b = 0) by lra.
    replace (a * a / (IZR n1 - 1) + b * b / (IZR n2 - 1)) with 0.
    + apply truediv_R_zero.
    + subst a b. rewrite H, H0. unfold Rdiv. ring.
Qed.

Lemma welch_s_sqr_ok (xs : list R) :
  (2 <= length xs)%nat -> Welch.s_sqr xs = Ok (variance xs).
Proof.
  intros H. unfold Welch.s_sqr.
  rewrite sample_mean_ok by (apply nonempty_of_length; assumption). cbn [bind].
  apply sample_var_ok. assumption.
Qed.

Lemma len_ge_2 (xs : list R) : (2 <= length xs)%nat -> (2 <= len xs)%Z.
Proof. unfold len. lia. Qed.

Lemma welch_dof_cases (s1 s2 : list R) :
  (2 <= length s1)%nat -> (2 <= length s2)%nat ->
  (welch_se2 s1 s2 <> 0 ->
   Welch.dof s1 s2
   = Ok (welch_satterthwaite (variance s1) (variance s2)
           (INR (length s1)) (INR (length s2)))) /\
  (welch_se2 s1 s2 = 0 -> Welch.dof s1 s2 = Raise ZeroDivisionError).
Proof.
  intros H1 H2. unfold Welch.dof, welch_se2.
  rewrite !welch_s_sqr_ok by assumption. cbn [bind].
  rewrite <- !len_R.
  apply get_welchs_ttest_dof_cases;
    auto using len_ge_2, variance_nonneg.
Qed.

(** Evaluating the sample statistics of the two samples used as examples
    below: [0, 2] and [2, -1, -1, 0] both have sample variance 2. *)
Example mean_0_2 : mean [0; 2] = 1.
Proof. unfold mean. simpl. lra. Qed.

Example variance_0_2 : variance [0; 2] = 2.
Proof. unfold variance. rewrite mean_0_2. simpl. lra. Qed.

Example mean_2_m1_m1_0 : mean [2; -1; -1; 0] = 0.
Proof. unfold mean. simpl. lra. Qed.

Example variance_2_m1_m1_0 : variance [2; -1; -1; 0] = 2.
Proof. unfold variance. rewrite mean_2_m1_m1_0. simpl. lra. Qed.

Example welch_dof_0_2 : Welch.dof [0; 2] [2; -1; -1; 0] = Ok (27 / 13).
Proof.
  destruct (welch_dof_cases [0; 2] [2; -1; -1; 0]) as [H _];
    [simpl; lia | simpl; lia |].
  rewrite H.
  - f_equal. unfold welch_satterthwaite.
    rewrite variance_0_2, variance_2_m1_m1_0. simpl. lra.
  - unfold welch_se2. rewrite variance_0_2, variance_2_m1_m1_0. simpl. lra.
Qed.

Lemma not_an_integer_27_13 (z : Z) : IZR z <> 27 / 13.
Proof.
  intros H. assert (H13 : IZR (13 * z) = IZR 27) by (rewrite mult_IZR, H; lra).
  apply eq_IZR in H13. lia.
Qed.

(** C8. For samples of n1 >= 2 and n2 >= 2 values with sample variances v1
    and v2, Welch's cell divides the difference of the means by
    sqrt(v1/n1 + v2/n2), and [get_welchs_ttest_dof] returns
    (v1/n1 + v2/n2)^2 / ((v1/n1)^2/(n1-1) + (v2/n2)^2/(n2-1)); when both
    variances vanish both divisions raise.  The degrees of freedom need not
    be an integer: 27/13 for the samples [0, 2] and [2, -1, -1, 0]. *)
Theorem welch_t_and_dof :
  (forall s1 s2 : list R,
      (2 <= length s1)%nat -> (2 <= length s2)%nat ->
      let n1 := INR (length s1) in
      let n2 := INR (length s2) in
      let v1 := variance s1 in
      let v2 := variance s2 in
      (v1 / n1 + v2 / n2 <> 0 ->
       Welch.t_score s1 s2 = Ok ((mean s1 - mean s2) / sqrt (v1 / n1 + v2 / n2)) /\
       Welch.dof s1 s2
       = Ok ((v1 / n1 + v2 / n2) ^ 2
             / ((v1 / n1) ^ 2 / (n1 - 1) + (v2 / n2) ^ 2 / (n2 - 1)))) /\
      (v1 / n1 + v2 / n2 = 0 ->
       Welch.t_score s1 s2 = Raise ZeroDivisionError /\
       Welch.dof s1 s2 = Raise ZeroDivisionError)) /\
  (exists d, Welch.dof [0; 2] [2; -1; -1; 0] = Ok d /\ forall z : Z, IZR z <> d).
Proof.
  split.
  - intros s1 s2 H1 H2 n1 n2 v1 v2.
    destruct (welch_t_score_cases s1 s2 H1 H2) as [Ht Ht0].
    destruct (welch_dof_cases s1 s2 H1 H2) as [Hd Hd0].
    split; intros H; split; auto.
  - exists (27 / 13). split; [exact welch_dof_0_2 | exact not_an_integer_27_13].
Qed.

Lemma welch_t_and_dof_witness :
  Welch.t_score [0; 2] [2; -1; -1; 0]
  = Ok ((mean [0; 2] - mean [2; -1; -1; 0])
        / sqrt (variance [0; 2] / INR 2 + variance [2; -1; -1; 0] / INR 4)).
Proof.
  destruct welch_t_and_dof as [H _].
  destruct (H [0; 2] [2; -1; -1; 0]) as [Hok _].
  - simpl. lia.
  - simpl. lia.
  - apply Hok. rewrite variance_0_2, variance_2_m1_m1_0. simpl. lra.
Defined.

(** ** The pooled T-test, and its comparison with Welch's *)

Lemma pooled_variance_nonneg (v1 v2 n1 n2 : R) :
  0 <= v1 -> 0 <= v2 -> 2 <= n1 -> 2 <= n2 -> 0 <= pooled_variance v1 v2 n1 n2.
Proof.
  intros. unfold pooled_variance. apply div_nonneg; nra.
Qed.

Lemma pooled_t_score_cases (s1 s2 : list R) :
  (2 <= length s1)%nat -> (2 <= length s2)%nat ->
  let n1 := INR (length s1) in
  let n2 := INR (length s2) in
  let vp := pooled_variance (variance s1) (variance s2) n1 n2 in
  (vp <> 0 ->
   Pooled.t_score s1 s2
   = Ok ((mean s1 - mean s2) / (sqrt vp * sqrt (1 / n1 + 1 / n2)))) /\
  (vp = 0 -> Pooled.t_score s1 s2 = Raise ZeroDivisionError).
Proof.
  intros H1 H2 n1 n2 vp.
  pose proof (nonempty_of_length s1 H1) as Hne1.
  pose proof (nonempty_of_length s2 H2) as Hne2.
  pose proof (INR_length_ge_2 s1 H1) as Hn1. fold n1 in Hn1.
  pose proof (INR_length_ge_2 s2 H2) as Hn2. fold n2 in Hn2.
  pose proof (variance_nonneg s1 H1) as Hv1.
  pose proof (variance_nonneg s2 H2) as Hv2.
  assert (Hvp : 0 <= vp) by (apply pooled_variance_nonneg; assumption).
  assert (Hr : 0 < 1 / n1 + 1 / n2).
  { assert (0 < 1 / n1) by (apply div_pos; lra).
    assert (0 < 1 / n2) by (apply div_pos; lra). lra. }
  unfold Pooled.t_score, Pooled.s_pooled.
  rewrite !sample_mean_ok by assumption. cbn [bind].
  rewrite !sample_var_ok by assumption. cbn [bind].
  cbn [of_Z add sub mul R_Number].
  rewrite !minus_IZR, !plus_IZR, !len_R. fold n1 n2.
  rewrite (truediv_R_ok _ (n1 + n2 - 2)) by lra. cbn [bind].
  fold (pooled_variance (variance s1) (variance s2) n1 n2). fold vp.
  rewrite math_sqrt_R_ok by assumption. cbn [bind].
  rewrite !truediv_R_ok by lra. cbn [bind].
  rewrite math_sqrt_R_ok by lra. cbn [bind].
  assert (Hsr : 0 < sqrt (1 / n1 + 1 / n2)) by (apply sqrt_lt_R0; assumption).
  split.
  - intros Hnz. assert (0 < sqrt vp) by (apply sqrt_lt_R0; lra).
    rewrite truediv_R_ok; [reflexivity|]. apply Rgt_not_eq.
    apply Rmult_lt_0_compat; assumption.
  - intros Hz. rewrite Hz, sqrt_0, Rmult_0_l. apply truediv_R_zero.
Qed.

Section EqualVariances.
Variables s1 s2 : list R.
Hypothesis H1 : (2 <= length s1)%nat.
Hypothesis H2 : (2 <= length s2)%nat.
Hypothesis Hvar : variance s1 = variance s2.

Let n1 := INR (length s1).
Let n2 := INR (length s2).
Let v := variance s1.

Lemma sizes_ge_2 : 2 <= n1 /\ 2 <= n2.
Proof. split; apply INR_length_ge_2; assumption. Qed.





Hypothesis Hsize : length s1 = length s2.


End EqualVariances.




(** ** The paired T-test *)








(** ** The sign of the chi-squared statistic *)



(** The two goodness-of-fit cells in sequence return a non-negative
    statistic as soon as the observed total is positive. *)
Lemma goodness_of_fit_nonneg (observed expected : list R) :
  length observed = length expected ->
  Forall (fun e => 0 < e) expected ->
  0 < Rsum observed ->
  exists x, GoodnessOfFit.goodness_of_fit observed expected = Ok x /\ 0 <= x.
Proof.
  intros Hlen Hpos Hobs.
  assert (Hne : expected <> []).
  { intros ->. destruct observed; [simpl in Hobs; lra | discriminate]. }
  pose proof (Rsum_pos expected Hpos Hne) as Hexp.
  assert (Hnormed : Forall (fun e => 0 < e)
                      (map (fun e => e * (Rsum observed / Rsum expected)) expected)).
  { apply Forall_forall. intros x Hx. apply in_map_iff in Hx.
    destruct Hx as [e [<- He]]. rewrite Forall_forall in Hpos.
    apply Rmult_lt_0_compat; [apply Hpos; assumption | apply div_pos; assumption]. }
  unfold GoodnessOfFit.goodness_of_fit. rewrite normed_ok by lra. cbn [bind].
  eexists. split.
  - apply gof_chi_2_ok. apply Forall_forall. intros x Hx.
    rewrite Forall_forall in Hnormed. specialize (Hnormed x Hx). lra.
  - apply pearson_nonneg. assumption.
Qed.

(** ** The notebook's table of shirts and vests *)






(** ** Bounds on the exponential *)




(** ** Student's t with 14 degrees of freedom *)

Lemma horner_derivable_pt_lim (cs : list R) (x : R) :
  derivable_pt_lim (horner cs) x (horner_deriv cs x).
Proof.
  induction cs as [|c cs IH].
  - simpl. apply (derivable_pt_lim_const 0).
  - change (horner (c :: cs)) with (fct_cte c + id * horner cs)%F.
    replace (horner_deriv (c :: cs) x)
      with (0 + (1 * horner cs x + id x * horner_deriv cs x))
      by (unfold id; simpl; ring).
    apply derivable_pt_lim_plus; [apply derivable_pt_lim_const|].
    apply derivable_pt_lim_mult; [apply derivable_pt_lim_id | exact IH].
Qed.

(** A function with a non-negative derivative everywhere is monotone. *)
Lemma monotone_of_derivative (f f' : R -> R) :
  (forall x, derivable_pt_lim f x (f' x)) ->
  (forall x, 0 <= f' x) ->
  forall a b, a <= b -> f a <= f b.
Proof.
  intros Hd Hpos.
  assert (pr : derivable f) by (intros x; exists (f' x); apply Hd).
  apply (nonneg_derivative_1 f pr). intros x.
  rewrite (derive_pt_eq_0 f x (f' x) (pr x) (Hd x)). apply Hpos.
Qed.

Lemma t_Q14_horner (s : R) : t_Q14 s = horner t_Q14_coefficients s.
Proof. unfold t_Q14, t_Q14_coefficients. simpl. field. Qed.

Lemma t_Q14_derivative (s : R) :
  derivable_pt_lim t_Q14 s (3003 / 1024 * (1 - s ^ 2) ^ 6).
Proof.
  assert (H : derivable_pt_lim (horner t_Q14_coefficients) s
                (3003 / 1024 * (1 - s ^ 2) ^ 6)).
  { replace (3003 / 1024 * (1 - s ^ 2) ^ 6)
      with (horner_deriv t_Q14_coefficients s)
      by (unfold t_Q14_coefficients; simpl; field).
    apply horner_derivable_pt_lim. }
  intros eps Heps. destruct (H eps Heps) as [delta Hdelta].
  exists delta. intros h Hh Hhd. rewrite !t_Q14_horner. apply Hdelta; assumption.
Qed.

Lemma t_Q14_increasing (a b : R) : a <= b -> t_Q14 a <= t_Q14 b.
Proof.
  apply (monotone_of_derivative t_Q14 (fun s => 3003 / 1024 * (1 - s ^ 2) ^ 6)).
  - apply t_Q14_derivative.
  - intros x. apply Rmult_le_pos; [lra|].
    replace ((1 - x ^ 2) ^ 6) with (((1 - x ^ 2) ^ 3) ^ 2) by ring.
    apply pow2_ge_0.
Qed.

Lemma t_Q14_odd (s : R) : t_Q14 (- s) = - t_Q14 s.
Proof. unfold t_Q14. field. Qed.

Lemma t_Q14_one : t_Q14 1 = 1.
Proof. unfold t_Q14. field. Qed.

Lemma radicand_pos (x : R) : 0 < 14 + x ^ 2.
Proof. pose proof (pow2_ge_0 x). lra. Qed.

Lemma sqrt_radicand_sq (x : R) : sqrt (14 + x ^ 2) * sqrt (14 + x ^ 2) = 14 + x ^ 2.
Proof. apply sqrt_sqrt. pose proof (radicand_pos x). lra. Qed.

Lemma sqrt_radicand_pos (x : R) : 0 < sqrt (14 + x ^ 2).
Proof. apply sqrt_lt_R0. apply radicand_pos. Qed.

Lemma t_sine_odd (x : R) : t_sine (- x) = - t_sine x.
Proof.
  unfold t_sine. replace ((- x) ^ 2) with (x ^ 2) by ring.
  field. apply Rgt_not_eq. apply sqrt_radicand_pos.
Qed.

Lemma t_sine_sq (x : R) : t_sine x ^ 2 = x ^ 2 / (14 + x ^ 2).
Proof.
  unfold t_sine. pose proof (sqrt_radicand_pos x) as Hs.
  pose proof (sqrt_radicand_sq x) as Hq. pose proof (radicand_pos x).
  replace ((x / sqrt (14 + x ^ 2)) ^ 2)
    with (x ^ 2 / (sqrt (14 + x ^ 2) * sqrt (14 + x ^ 2))) by (field; lra).
  rewrite Hq. reflexivity.
Qed.

Lemma t_sine_bounds (x : R) : -1 < t_sine x < 1.
Proof.
  pose proof (t_sine_sq x) as Hsq. pose proof (radicand_pos x) as Hr.
  assert (Hlt : t_sine x ^ 2 < 1).
  { rewrite Hsq. apply (Rmult_lt_reg_r (14 + x ^ 2)); [assumption|].
    unfold Rdiv. rewrite Rmult_assoc, Rinv_l by lra. lra. }
  split; nra.
Qed.

(** The derivative of x / sqrt(14 + x^2). *)
Lemma t_sine_derivative (x : R) :
  derivable_pt_lim t_sine x (14 / ((14 + x ^ 2) * sqrt (14 + x ^ 2))).
Proof.
  pose proof (radicand_pos x) as Hr. pose proof (sqrt_radicand_pos x) as Hs.
  pose proof (sqrt_radicand_sq x) as Hq.
  assert (Hg : derivable_pt_lim (fun y => 14 + y ^ 2) x (2 * x)).
  { assert (H : derivable_pt_lim (horner [14; 0; 1]) x (2 * x)).
    { replace (2 * x) with (horner_deriv [14; 0; 1] x) by (simpl; ring).
      apply horner_derivable_pt_lim. }
    intros eps Heps. destruct (H eps Heps) as [delta Hdelta].
    exists delta. intros h Hh Hhd. specialize (Hdelta h Hh Hhd).
    simpl in Hdelta.
    replace (14 + (x + h) ^ 2) with (14 + (x + h) * (0 + (x + h) * (1 + (x + h) * 0)))
      by ring.
    replace (14 + x ^ 2) with (14 + x * (0 + x * (1 + x * 0))) by ring.
    exact Hdelta. }
  pose (root := comp sqrt (fun y => 14 + y ^ 2)).
  assert (Hroot : derivable_pt_lim root x (/ (2 * sqrt (14 + x ^ 2)) * (2 * x))).
  { apply derivable_pt_lim_comp; [exact Hg|].
    apply derivable_pt_lim_sqrt. assumption. }
  assert (Hdiv : derivable_pt_lim (id / root)%F x
                   ((1 * root x - / (2 * sqrt (14 + x ^ 2)) * (2 * x) * id x)
                    / (root x)²)).
  { apply derivable_pt_lim_div; [apply derivable_pt_lim_id | exact Hroot|].
    unfold root, comp. lra. }
  replace (14 / ((14 + x ^ 2) * sqrt (14 + x ^ 2)))
    with ((1 * root x - / (2 * sqrt (14 + x ^ 2)) * (2 * x) * id x) / (root x)²).
  - exact Hdiv.
  - unfold root, comp, id, Rsqr. rewrite Hq.
    replace (1 * sqrt (14 + x ^ 2) - / (2 * sqrt (14 + x ^ 2)) * (2 * x) * x)
      with ((sqrt (14 + x ^ 2) * sqrt (14 + x ^ 2) - x ^ 2) / sqrt (14 + x ^ 2))
      by (field; lra).
    rewrite Hq. field. split; lra.
Qed.

Lemma t_sine_increasing (a b : R) : a <= b -> t_sine a <= t_sine b.
Proof.
  apply (monotone_of_derivative t_sine
           (fun x => 14 / ((14 + x ^ 2) * sqrt (14 + x ^ 2)))).
  - apply t_sine_derivative.
  - intros x. pose proof (radicand_pos x). pose proof (sqrt_radicand_pos x).
    left. apply div_pos; [lra|]. apply Rmult_lt_0_compat; assumption.
Qed.

(** The closed form is what its name says: it decreases from 1/2 at 0 with
    the slope of the density. *)
Lemma t_sf_14_derivative (x : R) :
  derivable_pt_lim t_sf_14 x (- t_pdf_14 x).
Proof.
  pose proof (radicand_pos x) as Hr. pose proof (sqrt_radicand_pos x) as Hs.
  pose proof (sqrt_radicand_sq x) as Hq.
  assert (Hcomp : derivable_pt_lim (comp t_Q14 t_sine) x
            (3003 / 1024 * (1 - t_sine x ^ 2) ^ 6
             * (14 / ((14 + x ^ 2) * sqrt (14 + x ^ 2))))).
  { apply derivable_pt_lim_comp; [apply t_sine_derivative | apply t_Q14_derivative]. }
  assert (Hsf : derivable_pt_lim (fct_cte (1 / 2) - mult_real_fct (/ 2) (comp t_Q14 t_sine))%F x
            (0 - / 2 * (3003 / 1024 * (1 - t_sine x ^ 2) ^ 6
                        * (14 / ((14 + x ^ 2) * sqrt (14 + x ^ 2)))))).
  { apply derivable_pt_lim_minus; [apply derivable_pt_lim_const|].
    apply derivable_pt_lim_scal. exact Hcomp. }
  assert (Heq : - t_pdf_14 x
                = 0 - / 2 * (3003 / 1024 * (1 - t_sine x ^ 2) ^ 6
                             * (14 / ((14 + x ^ 2) * sqrt (14 + x ^ 2))))).
  { rewrite t_sine_sq. unfold t_pdf_14.
    assert (H14 : 0 < sqrt 14) by (apply sqrt_lt_R0; lra).
    assert (Hq14 : sqrt 14 * sqrt 14 = 14) by (apply sqrt_sqrt; lra).
    assert (Hsplit : sqrt (1 + x ^ 2 / 14) = sqrt (14 + x ^ 2) / sqrt 14).
    { replace (1 + x ^ 2 / 14) with ((14 + x ^ 2) / 14) by (field; lra).
      apply sqrt_div_alt. lra. }
    rewrite Hsplit.
    set (r := sqrt (14 + x ^ 2)) in *. set (q := sqrt 14) in *.
    rewrite <- Hq.
    replace (x ^ 2) with (r * r - q * q) by lra.
    rewrite <- Hq14. field. split; lra. }
  rewrite Heq.
  intros eps Heps. destruct (Hsf eps Heps) as [delta Hdelta].
  exists delta. intros h Hh Hhd. specialize (Hdelta h Hh Hhd).
  unfold t_sf_14. unfold minus_fct, fct_cte, mult_real_fct, comp in Hdelta.
  replace (1 / 2 - t_Q14 (t_sine (x + h)) / 2 - (1 / 2 - t_Q14 (t_sine x) / 2))
    with (1 / 2 - / 2 * t_Q14 (t_sine (x + h)) - (1 / 2 - / 2 * t_Q14 (t_sine x)))
    by field.
  exact Hdelta.
Qed.

Lemma t_sf_14_zero : t_sf_14 0 = 1 / 2.
Proof.
  unfold t_sf_14, t_sine. replace (0 / sqrt (14 + 0 ^ 2)) with 0
    by (unfold Rdiv; ring).
  unfold t_Q14. field.
Qed.

Lemma t_sf_14_symmetric : symmetric_about_zero t_sf_14.
Proof.
  intros x. unfold t_sf_14. rewrite t_sine_odd, t_Q14_odd. field.
Qed.

Lemma t_sf_14_survival : survival_function t_sf_14.
Proof.
  split.
  - intros x. unfold t_sf_14. destruct (t_sine_bounds x) as [Hlo Hhi].
    pose proof (t_Q14_increasing (t_sine x) 1 (Rlt_le _ _ Hhi)) as H1.
    pose proof (t_Q14_increasing (-1) (t_sine x) (Rlt_le _ _ Hlo)) as H2.
    rewrite t_Q14_one in H1.
    replace (-1) with (- (1)) in H2 by ring.
    rewrite t_Q14_odd, t_Q14_one in H2. lra.
  - intros x y Hxy. unfold t_sf_14.
    pose proof (t_Q14_increasing _ _ (t_sine_increasing x y Hxy)). lra.
Qed.

Lemma chi2_cdf_2_distribution : distribution_function chi2_cdf_2.
Proof.
  assert (Hexp : forall x, 0 < x -> 0 < exp (- x / 2) < 1).
  { intros x Hx. split; [apply exp_pos|].
    rewrite <- exp_0. apply exp_increasing. lra. }
  split.
  - intros x. unfold chi2_cdf_2. destruct (Rle_dec x 0); [lra|].
    specialize (Hexp x). lra.
  - intros x y Hxy. unfold chi2_cdf_2.
    destruct (Rle_dec x 0), (Rle_dec y 0); try lra.
    + specialize (Hexp y). lra.
    + destruct (Req_dec_T x y) as [-> | Hne]; [lra|].
      assert (exp (- y / 2) < exp (- x / 2)) by (apply exp_increasing; lra).
      lra.
Qed.

(** ** p-values *)

Lemma symmetric_sf_at_zero (sf : R -> R) :
  symmetric_about_zero sf -> sf 0 = 1 / 2.
Proof. intros Hsym. pose proof (Hsym 0) as H. rewrite Ropp_0 in H. lra. Qed.

Lemma one_tail_at_most_half (sf : R -> R) (score : R) :
  survival_function sf -> symmetric_about_zero sf ->
  0 <= PValue.p_value_1tail sf score <= 1 / 2.
Proof.
  intros Hsf Hsym. unfold PValue.p_value_1tail. cbn [absval R_Number]. split.
  - apply (sf_range sf Hsf).
  - rewrite <- (symmetric_sf_at_zero sf Hsym).
    apply (sf_antitone sf Hsf). apply Rabs_pos.
Qed.

(** C5. Every p-value the cells return lies in [0,1]: the survival function
    of a symmetric law taken at abs(score) is at most 1/2, so doubling it for
    the two-tailed test cannot exceed 1; 1 - cdf of a distribution function
    is a probability.  Student's t with 14 degrees of freedom and the
    chi-squared law with 2 are such oracles. *)
Theorem p_values_in_unit_interval :
  (forall sf : R -> R,
      survival_function sf -> symmetric_about_zero sf ->
      forall score : R,
        0 <= PValue.p_value_1tail sf score <= 1 /\
        0 <= PValue.p_value_2tail sf score <= 1) /\
  (forall cdf : R -> R,
      distribution_function cdf ->
      forall chi_2 : R, 0 <= PValue.p_value cdf chi_2 <= 1) /\
  (forall score : R,
      0 <= PValue.p_value_1tail t_sf_14 score <= 1 /\
      0 <= PValue.p_value_2tail t_sf_14 score <= 1) /\
  (forall chi_2 : R, 0 <= PValue.p_value chi2_cdf_2 chi_2 <= 1).
Proof.
  assert (Hsf : forall sf : R -> R,
             survival_function sf -> symmetric_about_zero sf ->
             forall score : R,
               0 <= PValue.p_value_1tail sf score <= 1 /\
               0 <= PValue.p_value_2tail sf score <= 1).
  { intros sf Hs Hsym score.
    pose proof (one_tail_at_most_half sf score Hs Hsym) as H.
    unfold PValue.p_value_2tail. unfold PValue.p_value_1tail in *.
    cbn [mul of_Z R_Number]. lra. }
  assert (Hcdf : forall cdf : R -> R,
             distribution_function cdf ->
             forall chi_2 : R, 0 <= PValue.p_value cdf chi_2 <= 1).
  { intros cdf Hc chi_2. unfold PValue.p_value. cbn [sub of_Z R_Number].
    pose proof (cdf_range cdf Hc chi_2). lra. }
  split; [exact Hsf|]. split; [exact Hcdf|]. split.
  - apply Hsf; [apply t_sf_14_survival | apply t_sf_14_symmetric].
  - apply Hcdf. apply chi2_cdf_2_distribution.
Qed.

Lemma p_values_in_unit_interval_witness :
  0 <= PValue.p_value_2tail t_sf_14 3 <= 1 /\
  0 <= PValue.p_value chi2_cdf_2 3 <= 1.
Proof.
  destruct p_values_in_unit_interval as [Hsf [Hcdf _]]. split.
  - apply Hsf; [apply t_sf_14_survival | apply t_sf_14_symmetric].
  - apply Hcdf. apply chi2_cdf_2_distribution.
Defined.

(** ** The tail of Student's survival function *)

(** The tail vanishes: the density integrates to 1/2 over the positive
    half-line, which is what the constant 3003/2048 is for. *)
Lemma t_Q14_near_one (s : R) :
  0 <= s <= 1 -> 1 - t_Q14 s <= 3003 / 1024 * (1 - s).
Proof.
  intros Hs.
  assert (pr : derivable t_Q14)
    by (intros x; exists (3003 / 1024 * (1 - x ^ 2) ^ 6); apply t_Q14_derivative).
  rewrite <- t_Q14_one at 1. apply (IAF t_Q14 s 1 (3003 / 1024) pr); [lra|].
  intros c Hc.
  rewrite (derive_pt_eq_0 t_Q14 c _ (pr c) (t_Q14_derivative c)).
  assert (H01 : 0 <= 1 - c ^ 2 <= 1) by nra.
  assert (Hpow : (1 - c ^ 2) ^ 6 <= 1).
  { pose proof (pow_incr (1 - c ^ 2) 1 6 H01) as H. rewrite pow1 in H. exact H. }
  lra.
Qed.

Lemma t_sine_near_one (x : R) : 0 < x -> 1 - t_sine x <= 7 / x ^ 2.
Proof.
  intros Hx. unfold t_sine.
  pose proof (sqrt_radicand_pos x) as Hr. pose proof (sqrt_radicand_sq x) as Hq.
  set (r := sqrt (14 + x ^ 2)) in *.
  assert (Hrx : x < r) by nra.
  assert (Hx2 : 0 < x ^ 2) by nra.
  apply (Rmult_le_reg_r (r * x ^ 2)); [apply Rmult_lt_0_compat; assumption|].
  replace ((1 - x / r) * (r * x ^ 2)) with ((r - x) * x ^ 2) by (field; lra).
  replace (7 / x ^ 2 * (r * x ^ 2)) with (7 * r) by (field; lra).
  assert (Hprod : (r - x) * (r + x) = 14) by nra.
  assert (Hle : (r - x) * x <= 7) by nra.
  nra.
Qed.

Lemma t_sf_14_tail (x : R) : 0 < x -> 0 <= t_sf_14 x <= 11 / x ^ 2.
Proof.
  intros Hx. split; [apply (sf_range t_sf_14 t_sf_14_survival)|].
  unfold t_sf_14.
  assert (Hs : 0 <= t_sine x <= 1).
  { split; [|left; apply t_sine_bounds].
    unfold t_sine. left. apply div_pos; [assumption | apply sqrt_radicand_pos]. }
  pose proof (t_Q14_near_one (t_sine x) Hs) as HQ.
  pose proof (t_sine_near_one x Hx) as Hsine.
  assert (Hx2 : 0 < / x ^ 2) by (apply Rinv_0_lt_compat; nra).
  unfold Rdiv in *. nra.
Qed.

(** ** The contingency test on every table, and on the notebook's *)




(** ** The notebook's one-sample T-test *)

Lemma ratio_R (p q : Z) : IZR q <> 0 -> ratio (F := R) p q = IZR p / IZR q.
Proof.
  intros Hq. unfold ratio. rewrite truediv_R_ok by assumption. reflexivity.
Qed.

(** The fifteen draws that follow [random.seed(42)]. *)
Lemma seed_42_numerators :
  fst (MT19937.random_numerators 15 (MT19937.seed 42))
  = [5759444582531269; 225276855802115; 2477243871446254; 2010503594304263;
     6633542971356286; 6095167118799258; 8036039137326224; 783075388467729;
     3800333899828131; 268389492715941; 1969315803709096; 4551835774384025;
     239014766360326; 1790970339079230; 5853638623635490]%Z.
Proof. vm_compute. reflexivity. Qed.

Lemma samples_R :
  Data.samples (F := R)
  = map (fun k => IZR k / 9007199254740992)
     [5759444582531269; 225276855802115; 2477243871446254; 2010503594304263;
      6633542971356286; 6095167118799258; 8036039137326224; 783075388467729;
      3800333899828131; 268389492715941; 1969315803709096; 4551835774384025;
      239014766360326; 1790970339079230; 5853638623635490]%Z.
Proof.
  unfold Data.samples, Data.randoms. rewrite seed_42_numerators.
  apply map_ext. intros k. unfold Data.random_float.
  rewrite ratio_R by lra. cbn [mul of_Z R_Number]. lra.
Qed.

Lemma samples_length : length (Data.samples (F := R)) = 15%nat.
Proof. rewrite samples_R. reflexivity. Qed.

Lemma samples_mean :
  mean Data.samples = 50493792219745637 / 135107988821114880.
Proof.
  unfold mean. rewrite samples_R. cbn [map length Rsum]. simpl INR. lra.
Qed.

Lemma samples_variance :
  variance Data.samples
  = 180775879109374719271845724886167 / 2129653008383425394514461385031680.
Proof.
  unfold variance. rewrite samples_mean, samples_R. cbn [map length Rsum].
  simpl INR. lra.
Qed.

(** A positive number lies between two bounds when its square lies between
    their squares. *)
Lemma bounds_of_square (x lo hi : R) :
  0 < x -> 0 <= lo -> 0 <= hi -> lo * lo < x * x < hi * hi -> lo < x < hi.
Proof. intros Hx Hlo Hhi [H1 H2]. split; nra. Qed.

Lemma samples_t_pos : 0 < samples_t.
Proof.
  unfold samples_t. apply div_pos; [lra|].
  apply div_pos; apply sqrt_lt_R0; lra.
Qed.

Lemma samples_t_square :
  samples_t * samples_t
  = 9574192573480442964369127996679407 / 723103516437498877087382899544668.
Proof.
  unfold samples_t.
  set (V := 180775879109374719271845724886167 / 2129653008383425394514461385031680).
  assert (HV : 0 < V) by (unfold V; lra).
  assert (Hb : 0 < sqrt V) by (apply sqrt_lt_R0; assumption).
  assert (Hc : 0 < sqrt 15) by (apply sqrt_lt_R0; lra).
  assert (Hbb : sqrt V * sqrt V = V) by (apply sqrt_sqrt; lra).
  assert (Hcc : sqrt 15 * sqrt 15 = 15) by (apply sqrt_sqrt; lra).
  set (A := 50493792219745637 / 135107988821114880 - 1 / 10).
  replace (A / (sqrt V / sqrt 15) * (A / (sqrt V / sqrt 15)))
    with (A * A * (sqrt 15 * sqrt 15) / (sqrt V * sqrt V)) by (field; lra).
  rewrite Hbb, Hcc. unfold A, V. lra.
Qed.

Lemma samples_t_bounds : 363873 / 100000 < samples_t < 363874 / 100000.
Proof.
  apply bounds_of_square; [apply samples_t_pos | lra | lra |].
  rewrite samples_t_square. lra.
Qed.

Lemma samples_t_score :
  OneSample.t_score Data.samples (ratio 1 10) = Ok samples_t.
Proof.
  destruct (one_sample_t_score_cases Data.samples (ratio 1 10)) as [H _].
  - rewrite samples_length. lia.
  - rewrite H.
    + rewrite samples_mean, samples_variance, samples_length, ratio_R by lra.
      unfold samples_t. simpl INR.
      replace (1 + 1 + 1 + 1 + 1 + 1 + 1 + 1 + 1 + 1 + 1 + 1 + 1 + 1 + 1) with 15 by lra.
      reflexivity.
    + rewrite samples_variance. lra.
Qed.

(** The p-value: Student's survival function at the t-score. *)
Lemma samples_t_sine_bounds :
  1742946153 / 2500000000 < t_sine samples_t < 6971784613 / 10000000000.
Proof.
  pose proof samples_t_pos as Hpos.
  apply bounds_of_square; [|lra|lra|].
  - unfold t_sine. apply div_pos; [assumption | apply sqrt_radicand_pos].
  - pose proof (t_sine_sq samples_t) as Hsq.
    replace (t_sine samples_t * t_sine samples_t) with (t_sine samples_t ^ 2) by ring.
    rewrite Hsq. replace (samples_t ^ 2) with (samples_t * samples_t) by ring.
    rewrite samples_t_square. lra.
Qed.

Lemma samples_p_value_bounds :
  13420 / 10000000 < t_sf_14 (Rabs samples_t) < 13421 / 10000000.
Proof.
  rewrite Rabs_right by (left; apply samples_t_pos).
  destruct samples_t_sine_bounds as [Hlo Hhi].
  pose proof (t_Q14_increasing _ _ (Rlt_le _ _ Hlo)) as H1.
  pose proof (t_Q14_increasing _ _ (Rlt_le _ _ Hhi)) as H2.
  unfold t_sf_14.
  assert (Hqlo : 9973158824 / 10000000000 < t_Q14 (1742946153 / 2500000000))
    by (unfold t_Q14; lra).
  assert (Hqhi : t_Q14 (6971784613 / 10000000000) < 9973158826 / 10000000000)
    by (unfold t_Q14; lra).
  lra.
Qed.

(** C7. For a sample of n >= 2 values and a hypothesised mean mu, the
    one-sample cell computes the sample mean and the sample variance with its
    n-1 denominator and returns t = (mean - mu) / (s / sqrt(n)), for n - 1
    degrees of freedom (a sample of variance 0 has no t-score: the division
    raises).  For the fifteen draws that follow random.seed(42) and
    mu = 0.1 this gives t = 3.63873... with 14 degrees of freedom and the
    one-tailed p-value 0.0013420... *)
Theorem one_sample_t_test :
  (forall (samples : list R) (mu : R),
      (2 <= length samples)%nat ->
      OneSample.xbar samples = Ok (mean samples) /\
      OneSample.s samples (mean samples) = Ok (sqrt (variance samples)) /\
      (variance samples <> 0 ->
       OneSample.t_score samples mu
       = Ok ((mean samples - mu)
             / (sqrt (variance samples) / sqrt (INR (length samples))))) /\
      (variance samples = 0 ->
       OneSample.t_score samples mu = Raise ZeroDivisionError) /\
      OneSample.dof samples = (Z.of_nat (length samples) - 1)%Z) /\
  (exists t : R,
      OneSample.t_score Data.samples (ratio 1 10) = Ok t /\
      363873 / 100000 < t < 363874 / 100000 /\
      OneSample.dof (F := R) Data.samples = 14%Z /\
      forall t_sf : R -> R -> R,
        (forall x, t_sf x 14 = t_sf_14 x) ->
        exists p : R,
          OneSample.p_value_1tail t_sf Data.samples (ratio 1 10) = Ok p /\
          13420 / 10000000 < p < 13421 / 10000000).
Proof.
  split.
  - intros samples mu Hn. apply one_sample_t_general. assumption.
  - exists samples_t.
    split; [apply samples_t_score|].
    split; [apply samples_t_bounds|].
    assert (Hdof : OneSample.dof (F := R) Data.samples = 14%Z)
      by (unfold OneSample.dof, len; rewrite samples_length; reflexivity).
    split; [exact Hdof|].
    intros t_sf Hsf. exists (t_sf_14 (Rabs samples_t)). split.
    + unfold OneSample.p_value_1tail. rewrite samples_t_score. cbn [bind].
      unfold PValue.p_value_1tail. rewrite Hdof. cbn [absval of_Z R_Number].
      rewrite Hsf. reflexivity.
    + apply samples_p_value_bounds.
Qed.

Lemma one_sample_t_test_witness :
  OneSample.xbar [1; 2; 6] = Ok (mean [1; 2; 6]) /\
  OneSample.dof (F := R) [1; 2; 6] = 2%Z.
Proof.
  destruct one_sample_t_test as [H _].
  destruct (H [1; 2; 6] 0) as [Hx [_ [_ [_ Hd]]]].
  - simpl. lia.
  - split; [exact Hx | exact Hd].
Defined.

(** * Further properties of the cells *)

(** ** The simple chi-squared test on one column of counts *)

Lemma Rsum_map_div {A : Type} (f : A -> R) (l : list A) (c : R) :
  Rsum (map (fun a => f a / c) l) = Rsum (map f l) / c.
Proof.
  induction l as [|a l IH]; simpl.
  - unfold Rdiv; ring.
  - rewrite IH. unfold Rdiv; ring.
Qed.

Lemma Rsum_sq_dev (xs : list R) (m : R) :
  Rsum (map (fun x => (x - m) ^ 2) xs)
  = Rsum (map (fun x => x ^ 2) xs) - 2 * m * Rsum xs + INR (length xs) * m ^ 2.
Proof.
  induction xs as [|x xs IH].
  - simpl; ring.
  - cbn [map Rsum]. rewrite IH.
    change (length (x :: xs)) with (S (length xs)). rewrite S_INR. ring.
Qed.

Lemma np_mean_ok (xs : list R) : xs <> [] -> np_mean xs = Ok (mean xs).
Proof.
  intros Hne. unfold np_mean. rewrite np_sum_R.
  cbn [of_Z R_Number]. rewrite len_R.
  apply np_true_divide_R_ok.
  apply Rgt_not_eq, INR_length_pos, Hne.
Qed.


Lemma mean_zero_iff (xs : list R) : xs <> [] -> (mean xs = 0 <-> Rsum xs = 0).
Proof.
  intros Hne. pose proof (INR_length_pos xs Hne) as Hn. unfold mean. split.
  - intros H. apply (Rmult_eq_compat_r (INR (length xs))) in H.
    unfold Rdiv in H. rewrite Rmult_assoc, Rinv_l, Rmult_1_r, Rmult_0_l in H by lra.
    exact H.
  - intros ->. unfold Rdiv; ring.
Qed.

Lemma simple_chi_2_ok (xs : list R) :
  xs <> [] -> Rsum xs <> 0 ->
  Simple.chi_2 xs = Ok (Rsum (map (fun x => (x - mean xs) ^ 2) xs) / mean xs).
Proof.
  intros Hne Hsum. unfold Simple.chi_2.
  rewrite (np_mean_ok xs Hne). cbn [bind].
  assert (Hm : mean xs <> 0) by (rewrite mean_zero_iff; assumption).
  unfold series_div_scalar.
  rewrite (mapM_ok _ (fun y => y / mean xs)).
  2:{ intros a _. apply np_true_divide_R_ok, Hm. }
  cbn [bind]. rewrite np_sum_R. f_equal.
  unfold series_pow2, series_sub_scalar.
  rewrite !map_map, <- (Rsum_map_div (fun x => (x - mean xs) ^ 2)).
  apply Rsum_map_ext. intros a _.
  unfold pow2. cbn [mul sub R_Number]. field. exact Hm.
Qed.


Lemma sq_dev_zero_iff (xs : list R) (m : R) :
  Rsum (map (fun x => (x - m) ^ 2) xs) = 0 <-> Forall (fun x => x = m) xs.
Proof.
  induction xs as [|x xs IH]; cbn [map Rsum].
  - split; [constructor | reflexivity].
  - pose proof (sq_dev_nonneg xs m) as Hrest.
    assert (Hx : 0 <= (x - m) ^ 2) by apply pow2_ge_0.
    split.
    + intros H. constructor.
      * assert (Hz : (x - m) ^ 2 = 0) by lra. simpl in Hz.
        destruct (Rmult_integral _ _ Hz) as [H0|H0]; lra.
      * apply IH. lra.
    + intros H. inversion H as [|? ? Hxm Hxs]; subst.
      apply IH in Hxs. rewrite Hxs. simpl. ring.
Qed.

(** X1. The simple cell on a non-empty column with a non-zero total returns
    the sum of (O_i - m)^2 / m for the mean count m, which is
    n * (sum of O_i^2) / (sum of O_i) - (sum of O_i). *)
Theorem simple_chi_2_shortcut (shirts : list R) :
  shirts <> [] -> Rsum shirts <> 0 ->
  Simple.chi_2 shirts
  = Ok (INR (length shirts) * Rsum (map (fun x => x ^ 2) shirts) / Rsum shirts
        - Rsum shirts).
Proof.
  intros Hne Hsum. rewrite (simple_chi_2_ok shirts Hne Hsum). f_equal.
  pose proof (INR_length_pos shirts Hne) as Hn.
  rewrite Rsum_sq_dev. unfold mean. field. split; lra.
Qed.

Lemma simple_chi_2_shortcut_witness :
  Simple.chi_2 [32; 27; 28] = Ok (INR 3 * (32 ^ 2 + (27 ^ 2 + (28 ^ 2 + 0))) / 87 - 87).
Proof.
  replace 87 with (Rsum [32; 27; 28]) by (simpl; lra).
  apply (simple_chi_2_shortcut [32; 27; 28]).
  - discriminate.
  - simpl; lra.
Defined.


(** X3. On a column with a non-zero total the simple statistic is 0 exactly
    when every store has the same count. *)
Theorem simple_chi_2_zero_iff_equal_counts (shirts : list R) :
  shirts <> [] -> Rsum shirts <> 0 ->
  (Simple.chi_2 shirts = Ok 0 <-> Forall (fun x => x = mean shirts) shirts).
Proof.
  intros Hne Hsum. rewrite (simple_chi_2_ok shirts Hne Hsum).
  assert (Hm : mean shirts <> 0) by (rewrite mean_zero_iff; assumption).
  rewrite <- sq_dev_zero_iff. split.
  - intros H. injection H as H.
    apply (Rmult_eq_compat_r (mean shirts)) in H.
    unfold Rdiv in H. rewrite Rmult_assoc, Rinv_l, Rmult_1_r, Rmult_0_l in H by exact Hm.
    exact H.
  - intros ->. f_equal. unfold Rdiv; ring.
Qed.

Lemma simple_chi_2_zero_iff_equal_counts_witness :
  Simple.chi_2 [29; 29; 29] = Ok 0 <-> Forall (fun x => x = mean [29; 29; 29]) [29; 29; 29].
Proof.
  apply (simple_chi_2_zero_iff_equal_counts [29; 29; 29]).
  - discriminate.
  - simpl; lra.
Defined.






(** ** Scaling the counts *)











(** ** Goodness of fit: when the statistic vanishes *)




(** ** The frame of totals *)

Lemma df_totals_rectangular (df : list (list R)) (C : nat) :
  rectangular df C -> df <> [] -> rectangular (Contingency.df_totals df) (S C).
Proof.
  intros Hrect Hne. unfold rectangular in *.
  rewrite df_totals_rows. apply Forall_forall. intros row' Hin.
  apply in_map_iff in Hin as [row [<- Hin]].
  rewrite length_app. cbn [length].
  apply in_app_or in Hin as [Hin|[<-|[]]].
  - rewrite Forall_forall in Hrect. rewrite (Hrect _ Hin). lia.
  - rewrite sum_axis0_length, (ncols_is df C Hrect Hne). lia.
Qed.

Lemma loc_totals_cell (df : list (list R)) (C i j : nat) :
  rectangular df C -> (i < length df)%nat -> (j < C)%nat ->
  Contingency.loc (Contingency.df_totals df) i j = Contingency.loc df i j.
Proof.
  intros Hrect Hi Hj. unfold Contingency.loc.
  rewrite (totals_nth_row df i Hi). apply app_nth1.
  now rewrite (row_length df C Hrect i Hi).
Qed.

(** X7. The frame of totals of an R-by-C table has R+1 rows of C+1 entries:
    the table itself, a last column of row totals, a last row of column
    totals, and in the corner one number that is both the sum of the row
    totals and the sum of the column totals. *)
Theorem df_totals_frame (df : list (list R)) (C : nat) :
  rectangular df C -> df <> [] ->
  let df_tots := Contingency.df_totals df in
  let n := length df in
  Contingency.nrows df_tots = S n /\
  rectangular df_tots (S C) /\
  (forall i j, (i < n)%nat -> (j < C)%nat ->
     Contingency.loc df_tots i j = Contingency.loc df i j) /\
  (forall i, (i < n)%nat ->
     Contingency.loc df_tots i (Contingency.Total_col df_tots)
     = Rsum (nth i df [])) /\
  (forall j, (j < C)%nat ->
     Contingency.loc df_tots (Contingency.Total_row df_tots) j
     = Rsum (map (fun row => nth j row 0) df)) /\
  Contingency.loc df_tots (Contingency.Total_row df_tots)
    (Contingency.Total_col df_tots)
  = Rsum (map (fun i => Rsum (nth i df [])) (seq 0 n)) /\
  Contingency.loc df_tots (Contingency.Total_row df_tots)
    (Contingency.Total_col df_tots)
  = Rsum (map (fun j => Rsum (map (fun row => nth j row 0) df)) (seq 0 C)).
Proof.
  intros Hrect Hne df_tots n. subst df_tots n.
  rewrite (Total_row_is df), (Total_col_is df C Hrect Hne).
  split; [apply df_totals_nrows|].
  split; [apply df_totals_rectangular; assumption|].
  split; [intros i j Hi Hj; apply (loc_totals_cell df C i j); assumption|].
  split; [intros i Hi; apply (loc_row_total df C Hrect i Hi)|].
  split; [intros j Hj; apply (loc_col_total df C Hrect Hne j Hj)|].
  rewrite (loc_grand_total df C Hrect Hne). split.
  - apply grand_total_rows.
  - symmetry. apply (col_totals_sum df C Hrect).
Qed.

Lemma df_totals_frame_witness :
  Contingency.loc (Contingency.df_totals [[28; 61]; [32; 62]; [27; 57]])
    (Contingency.Total_row (Contingency.df_totals [[28; 61]; [32; 62]; [27; 57]]))
    (Contingency.Total_col (Contingency.df_totals [[28; 61]; [32; 62]; [27; 57]]))
  = Rsum (map (fun i => Rsum (nth i [[28; 61]; [32; 62]; [27; 57]] [])) (seq 0 3)).
Proof.
  apply (df_totals_frame [[28; 61]; [32; 62]; [27; 57]] 2).
  - repeat constructor.
  - discriminate.
Defined.

(** ** Expected counts *)





(** ** The contingency loop at its edges *)

Lemma for_each_nil {A : Type} (body : nat -> A -> outcome A) (init : outcome A) :
  Contingency.for_each [] body init = init.
Proof. reflexivity. Qed.

Lemma for_each_cons {A : Type} (id : nat) (ids : list nat)
  (body : nat -> A -> outcome A) (init : outcome A) :
  Contingency.for_each (id :: ids) body init
  = Contingency.for_each ids body (a <- init ;; body id a).
Proof. reflexivity. Qed.

Lemma get_expected_zero_grand_total (df : list (list R)) (C i j : nat) :
  rectangular df C -> df <> [] -> grand_total df = 0 ->
  Contingency.get_expected (Contingency.df_totals df) i j = NotFinite.
Proof.
  intros Hrect Hne HG. unfold Contingency.get_expected.
  rewrite (Total_row_is df), (Total_col_is df C Hrect Hne).
  rewrite (loc_grand_total df C Hrect Hne), HG.
  apply np_true_divide_R_zero.
Qed.

Lemma chi_2_step_zero_grand_total (df : list (list R)) (C i j : nat) (acc : R) :
  rectangular df C -> df <> [] -> grand_total df = 0 ->
  Contingency.chi_2_step df (Contingency.df_totals df) i j acc = NotFinite.
Proof.
  intros Hrect Hne HG. unfold Contingency.chi_2_step.
  now rewrite (get_expected_zero_grand_total df C i j Hrect Hne HG).
Qed.

Lemma chi_2_zero_grand_total (df : list (list R)) (C : nat) :
  rectangular df C -> df <> [] -> (0 < C)%nat -> grand_total df = 0 ->
  Contingency.chi_2 df = NotFinite.
Proof.
  intros Hrect Hne HC HG. unfold Contingency.chi_2.
  unfold Contingency.nrows. rewrite (ncols_is df C Hrect Hne).
  destruct df as [|row df']; [congruence|].
  destruct C as [|C']; [lia|].
  cbn [length seq]. rewrite for_each_cons. cbn [bind].
  rewrite (for_each_cons 0%nat). cbn [bind].
  rewrite (chi_2_step_zero_grand_total (row :: df') (S C') 0 0 _ Hrect Hne HG).
  rewrite for_each_not_finite. apply for_each_not_finite.
Qed.

(** X9. At the edges of its domain the contingency loop raises nothing: on a
    frame without rows it returns the initial 0.0, and on a table whose
    grand total is 0 every expected count, and the statistic, is nan. *)
Theorem contingency_chi_2_edges :
  Contingency.chi_2 (@nil (list R)) = Ok 0 /\
  (forall (df : list (list R)) (C : nat),
      rectangular df C -> df <> [] -> (0 < C)%nat -> grand_total df = 0 ->
      (forall i j,
          Contingency.get_expected (Contingency.df_totals df) i j = NotFinite) /\
      Contingency.chi_2 df = NotFinite).
Proof.
  split; [reflexivity|].
  intros df C Hrect Hne HC HG. split.
  - intros i j. apply (get_expected_zero_grand_total df C); assumption.
  - apply (chi_2_zero_grand_total df C); assumption.
Qed.

Lemma contingency_chi_2_edges_witness :
  Contingency.chi_2 [[0; 0]; [0; 0]] = NotFinite.
Proof.
  apply (proj2 contingency_chi_2_edges [[0; 0]; [0; 0]] 2%nat).
  - repeat constructor.
  - discriminate.
  - lia.
  - unfold grand_total; simpl; lra.
Defined.

(** ** When the contingency statistic vanishes *)










(** ** Scaling and transposing a table *)



Lemma Rsum_map_Rmult_map {A : Type} (k : R) (f : A -> R) (l : list A) :
  Rsum (map (fun a => k * f a) l) = k * Rsum (map f l).
Proof.
  induction l as [|a l IH]; cbn [map Rsum]; [ring | rewrite IH; ring].
Qed.


Section ScaledTable.
Variable df : list (list R).
Variable k : R.








Hypothesis Hk : k <> 0.



End ScaledTable.





Section TransposedTable.
Variable df : list (list R).
Variable C : nat.
Hypothesis Hrect : rectangular df C.
Hypothesis Hne : df <> [].












End TransposedTable.



(** ** The two-by-two table *)



(** ** The one-sample T-test: where it is defined, and its symmetries *)

Lemma variance_zero_iff (xs : list R) :
  (2 <= length xs)%nat ->
  (variance xs = 0 <-> Forall (fun x => x = mean xs) xs).
Proof.
  intros Hn. pose proof (INR_length_ge_2 xs Hn) as Hn'.
  rewrite <- sq_dev_zero_iff. unfold variance. split.
  - intros H. apply (Rmult_eq_compat_r (INR (length xs) - 1)) in H.
    unfold Rdiv in H. rewrite Rmult_assoc, Rinv_l, Rmult_1_r, Rmult_0_l in H by lra.
    exact H.
  - intros ->. unfold Rdiv; ring.
Qed.

Lemma constant_sample_dec (xs : list R) :
  {constant_sample xs} + {~ constant_sample xs}.
Proof.
  unfold constant_sample. apply Forall_dec. intros x. apply Req_dec_T.
Qed.

Lemma short_sample_constant (xs : list R) :
  (length xs < 2)%nat -> constant_sample xs.
Proof.
  intros H. destruct xs as [|x [|y xs]]; unfold constant_sample.
  - constructor.
  - repeat constructor.
  - simpl in H; lia.
Qed.

Lemma variance_zero_constant (xs : list R) :
  (2 <= length xs)%nat -> (variance xs = 0 <-> constant_sample xs).
Proof.
  intros Hn. rewrite (variance_zero_iff xs Hn). unfold constant_sample.
  destruct xs as [|x xs]; [simpl in Hn; lia|]. cbn [hd]. split.
  - intros H. inversion H as [|? ? Hx _]; subst.
    eapply Forall_impl; [|exact H]. intros y Hy. cbn beta in Hy. congruence.
  - intros H. rewrite (mean_constant (x :: xs) x H) by discriminate. exact H.
Qed.

Lemma one_sample_not_constant (samples : list R) (mu : R) :
  ~ constant_sample samples ->
  (2 <= length samples)%nat /\ variance samples <> 0 /\
  OneSample.t_score samples mu
  = Ok ((mean samples - mu)
        / (sqrt (variance samples) / sqrt (INR (length samples)))).
Proof.
  intros Hnc.
  assert (Hn : (2 <= length samples)%nat).
  { destruct (le_lt_dec 2 (length samples)) as [H|H]; [exact H|].
    exfalso. apply Hnc, short_sample_constant, H. }
  assert (Hv : variance samples <> 0).
  { intros H. apply Hnc. apply (variance_zero_constant samples Hn), H. }
  split; [exact Hn|]. split; [exact Hv|].
  apply (proj1 (one_sample_t_score_cases samples mu Hn) Hv).
Qed.


Lemma Rsum_map_affine (a b : R) (xs : list R) :
  Rsum (map (fun x => a * x + b) xs) = a * Rsum xs + INR (length xs) * b.
Proof.
  induction xs as [|x xs IH].
  - simpl; ring.
  - cbn [map Rsum]. rewrite IH.
    change (length (x :: xs)) with (S (length xs)). rewrite S_INR. ring.
Qed.

Lemma mean_map_affine (a b : R) (xs : list R) :
  xs <> [] -> mean (map (fun x => a * x + b) xs) = a * mean xs + b.
Proof.
  intros Hne. pose proof (INR_length_pos xs Hne) as Hn.
  unfold mean. rewrite Rsum_map_affine, length_map. field. lra.
Qed.

Lemma variance_map_affine (a b : R) (xs : list R) :
  (2 <= length xs)%nat ->
  variance (map (fun x => a * x + b) xs) = a ^ 2 * variance xs.
Proof.
  intros Hn. pose proof (INR_length_ge_2 xs Hn) as Hn'.
  unfold variance.
  rewrite (mean_map_affine a b xs (nonempty_of_length xs Hn)).
  rewrite map_map, length_map.
  rewrite (Rsum_map_ext _ (fun x => a ^ 2 * (x - mean xs) ^ 2))
    by (intros; ring).
  rewrite (Rsum_map_Rmult_map (a ^ 2) (fun x => (x - mean xs) ^ 2)).
  field. lra.
Qed.

Lemma constant_map_affine (a b : R) (xs : list R) :
  constant_sample xs -> constant_sample (map (fun x => a * x + b) xs).
Proof.
  unfold constant_sample. intros H. destruct xs as [|x xs]; [constructor|].
  cbn [map hd] in *. apply Forall_forall. intros y Hy.
  change (In y (map (fun x => a * x + b) (x :: xs))) in Hy.
  apply in_map_iff in Hy as [z [<- Hz]].
  rewrite Forall_forall in H. now rewrite (H z Hz).
Qed.

Lemma sqrt_scaled (a v : R) : 0 <= v -> sqrt (a ^ 2 * v) = Rabs a * sqrt v.
Proof.
  intros Hv. rewrite sqrt_mult; [|apply pow2_ge_0 | exact Hv].
  f_equal. replace (a ^ 2) with (Rsqr a) by (unfold Rsqr; ring).
  apply sqrt_Rsqr_abs.
Qed.

Lemma one_sample_affine (samples : list R) (mu a b : R) :
  a <> 0 ->
  OneSample.t_score (map (fun x => a * x + b) samples) (a * mu + b)
  = t <- OneSample.t_score samples mu ;; Ok (a / Rabs a * t).
Proof.
  intros Ha.
  destruct (constant_sample_dec samples) as [Hc|Hnc].
  - rewrite (one_sample_constant_raises samples (hd 0 samples) mu Hc).
    pose proof (constant_map_affine a b samples Hc) as Hc'.
    now rewrite (one_sample_constant_raises _ _ (a * mu + b) Hc').
  - destruct (one_sample_not_constant samples mu Hnc) as [Hn [Hv ->]].
    cbn [bind].
    assert (Hn' : (2 <= length (map (fun x => (a * x + b)%R) samples))%nat)
      by (now rewrite length_map).
    assert (Hv' : variance (map (fun x => a * x + b) samples) <> 0).
    { rewrite (variance_map_affine a b samples Hn). intros H.
      destruct (Rmult_integral _ _ H) as [H0|H0]; [|contradiction].
      simpl in H0. destruct (Rmult_integral _ _ H0) as [H1|H1]; lra. }
    rewrite (proj1 (one_sample_t_score_cases _ (a * mu + b) Hn') Hv').
    f_equal.
    rewrite (mean_map_affine a b samples (nonempty_of_length samples Hn)).
    rewrite (variance_map_affine a b samples Hn), length_map.
    pose proof (variance_nonneg samples Hn) as Hvn.
    rewrite (sqrt_scaled a _ Hvn).
    assert (Hs : 0 < sqrt (variance samples)) by (apply sqrt_lt_R0; lra).
    pose proof (sqrt_INR_length_pos samples (nonempty_of_length samples Hn)) as Hr.
    pose proof (Rabs_pos_lt a Ha) as Habs.
    field. repeat split; lra.
Qed.

(** X16. The one-sample t-score does not depend on the unit or the origin
    of the measurements: replacing every sample x by a*x + b and the
    hypothesised mean mu by a*mu + b leaves it unchanged for a > 0 and
    changes its sign for a < 0; a failure stays the same failure. *)
Theorem one_sample_affine_invariance (samples : list R) (mu a b : R) :
  (0 < a ->
   OneSample.t_score (map (fun x => a * x + b) samples) (a * mu + b)
   = OneSample.t_score samples mu) /\
  (a < 0 ->
   OneSample.t_score (map (fun x => a * x + b) samples) (a * mu + b)
   = t <- OneSample.t_score samples mu ;; Ok (- t)).
Proof.
  split; intros Ha.
  - rewrite (one_sample_affine samples mu a b) by lra.
    rewrite (Rabs_pos_eq a) by lra.
    destruct (OneSample.t_score samples mu); cbn [bind]; try reflexivity.
    f_equal. field. lra.
  - rewrite (one_sample_affine samples mu a b) by lra.
    rewrite (Rabs_left a) by lra.
    destruct (OneSample.t_score samples mu); cbn [bind]; try reflexivity.
    f_equal. field. lra.
Qed.

Lemma one_sample_affine_invariance_witness :
  OneSample.t_score (map (fun x => 2 * x + 1) [1; 2; 4]) (2 * 3 + 1)
  = OneSample.t_score [1; 2; 4] 3.
Proof.
  apply (one_sample_affine_invariance [1; 2; 4] 3 2 1). lra.
Defined.

Lemma div_sign (x s : R) :
  0 < s ->
  (0 < x / s <-> 0 < x) /\ (x / s < 0 <-> x < 0) /\ (x / s = 0 <-> x = 0).
Proof.
  intros Hs. assert (Hi : 0 < / s) by (apply Rinv_0_lt_compat, Hs).
  unfold Rdiv. repeat split; intros H; nra.
Qed.

(** X17. On a sample with two different values the sign of the t-score is
    the sign of (sample mean - hypothesised mean). *)
Theorem one_sample_t_score_sign (samples : list R) (mu : R) :
  (2 <= length samples)%nat -> variance samples <> 0 ->
  exists t,
    OneSample.t_score samples mu = Ok t /\
    (0 < t <-> mu < mean samples) /\
    (t < 0 <-> mean samples < mu) /\
    (t = 0 <-> mean samples = mu).
Proof.
  intros Hn Hv.
  rewrite (proj1 (one_sample_t_score_cases samples mu Hn) Hv).
  eexists. split; [reflexivity|].
  pose proof (variance_nonneg samples Hn) as Hvn.
  assert (Hs : 0 < sqrt (variance samples)) by (apply sqrt_lt_R0; lra).
  pose proof (sqrt_INR_length_pos samples (nonempty_of_length samples Hn)) as Hr.
  assert (Hse : 0 < sqrt (variance samples) / sqrt (INR (length samples)))
    by (apply div_pos; assumption).
  destruct (div_sign (mean samples - mu) _ Hse) as [H1 [H2 H3]].
  split; [|split].
  - rewrite H1. split; lra.
  - rewrite H2. split; lra.
  - rewrite H3. split; lra.
Qed.

Lemma one_sample_t_score_sign_witness :
  exists t,
    OneSample.t_score [0; 2] 0 = Ok t /\
    (0 < t <-> 0 < mean [0; 2]) /\
    (t < 0 <-> mean [0; 2] < 0) /\
    (t = 0 <-> mean [0; 2] = 0).
Proof.
  apply (one_sample_t_score_sign [0; 2] 0).
  - simpl; lia.
  - rewrite variance_0_2. lra.
Defined.

(** ** The two-sample T-tests: short samples, exchanged samples *)

Lemma sample_mean_cons (x : R) (xs : list R) :
  sample_mean (x :: xs) = Ok (mean (x :: xs)).
Proof. apply sample_mean_ok. discriminate. Qed.

Lemma welch_t_short (s1 s2 : list R) :
  (length s1 < 2)%nat \/ (length s2 < 2)%nat ->
  Welch.t_score s1 s2 = Raise ZeroDivisionError.
Proof.
  intros H. unfold Welch.t_score.
  destruct s1 as [|x1 s1]; [rewrite sample_mean_empty; reflexivity|].
  rewrite sample_mean_cons. cbn [bind].
  destruct s2 as [|x2 s2]; [rewrite sample_mean_empty; reflexivity|].
  rewrite sample_mean_cons. cbn [bind].
  destruct s1 as [|y1 s1]; [rewrite sample_var_singleton; reflexivity|].
  rewrite sample_var_ok by (simpl; lia). cbn [bind].
  destruct s2 as [|y2 s2]; [rewrite sample_var_singleton; reflexivity|].
  simpl in H. lia.
Qed.

Lemma welch_s_sqr_short (xs : list R) :
  (length xs < 2)%nat -> Welch.s_sqr xs = Raise ZeroDivisionError.
Proof.
  intros H. unfold Welch.s_sqr.
  destruct xs as [|x xs]; [rewrite sample_mean_empty; reflexivity|].
  rewrite sample_mean_cons. cbn [bind].
  destruct xs as [|y xs]; [apply sample_var_singleton|].
  simpl in H. lia.
Qed.

Lemma welch_dof_short (s1 s2 : list R) :
  (length s1 < 2)%nat \/ (length s2 < 2)%nat ->
  Welch.dof s1 s2 = Raise ZeroDivisionError.
Proof.
  intros H. unfold Welch.dof.
  destruct (le_lt_dec 2 (length s1)) as [H1|H1].
  - rewrite (welch_s_sqr_ok s1 H1). cbn [bind].
    destruct H as [H|H]; [lia|]. now rewrite (welch_s_sqr_short s2 H).
  - now rewrite (welch_s_sqr_short s1 H1).
Qed.

Lemma pooled_t_short (s1 s2 : list R) :
  (length s1 < 2)%nat \/ (length s2 < 2)%nat ->
  Pooled.t_score s1 s2 = Raise ZeroDivisionError.
Proof.
  intros H. unfold Pooled.t_score.
  destruct s1 as [|x1 s1]; [rewrite sample_mean_empty; reflexivity|].
  rewrite sample_mean_cons. cbn [bind].
  destruct s2 as [|x2 s2]; [rewrite sample_mean_empty; reflexivity|].
  rewrite sample_mean_cons. cbn [bind].
  destruct s1 as [|y1 s1]; [rewrite sample_var_singleton; reflexivity|].
  rewrite sample_var_ok by (simpl; lia). cbn [bind].
  destruct s2 as [|y2 s2]; [rewrite sample_var_singleton; reflexivity|].
  simpl in H. lia.
Qed.

Lemma welch_se2_sym (s1 s2 : list R) : welch_se2 s2 s1 = welch_se2 s1 s2.
Proof. unfold welch_se2. ring. Qed.

Lemma welch_satterthwaite_sym (v1 v2 n1 n2 : R) :
  welch_satterthwaite v2 v1 n2 n1 = welch_satterthwaite v1 v2 n1 n2.
Proof. unfold welch_satterthwaite. f_equal; ring. Qed.

Lemma pooled_variance_sym (v1 v2 n1 n2 : R) :
  pooled_variance v2 v1 n2 n1 = pooled_variance v1 v2 n1 n2.
Proof. unfold pooled_variance. f_equal; ring. Qed.

Lemma welch_t_swap (s1 s2 : list R) :
  Welch.t_score s2 s1 = t <- Welch.t_score s1 s2 ;; Ok (- t).
Proof.
  destruct (le_lt_dec 2 (length s1)) as [H1|H1];
    [destruct (le_lt_dec 2 (length s2)) as [H2|H2]|].
  - destruct (welch_t_score_cases s1 s2 H1 H2) as [Hok Hbad].
    destruct (welch_t_score_cases s2 s1 H2 H1) as [Hok' Hbad'].
    rewrite welch_se2_sym in Hok', Hbad'.
    destruct (Req_dec_T (welch_se2 s1 s2) 0) as [Hz|Hnz].
    + now rewrite (Hbad Hz), (Hbad' Hz).
    + rewrite (Hok Hnz), (Hok' Hnz). cbn [bind]. f_equal.
      assert (Hs : 0 < sqrt (welch_se2 s1 s2)).
      { apply sqrt_lt_R0. pose proof (welch_se2_nonneg s1 s2 H1 H2). lra. }
      field. lra.
  - now rewrite !welch_t_short by auto.
  - now rewrite !welch_t_short by auto.
Qed.

Lemma welch_dof_swap (s1 s2 : list R) : Welch.dof s2 s1 = Welch.dof s1 s2.
Proof.
  destruct (le_lt_dec 2 (length s1)) as [H1|H1];
    [destruct (le_lt_dec 2 (length s2)) as [H2|H2]|].
  - destruct (welch_dof_cases s1 s2 H1 H2) as [Hok Hbad].
    destruct (welch_dof_cases s2 s1 H2 H1) as [Hok' Hbad'].
    rewrite welch_se2_sym in Hok', Hbad'.
    destruct (Req_dec_T (welch_se2 s1 s2) 0) as [Hz|Hnz].
    + now rewrite (Hbad Hz), (Hbad' Hz).
    + rewrite (Hok Hnz), (Hok' Hnz). f_equal. apply welch_satterthwaite_sym.
  - now rewrite !welch_dof_short by auto.
  - now rewrite !welch_dof_short by auto.
Qed.

Lemma pooled_t_swap (s1 s2 : list R) :
  Pooled.t_score s2 s1 = t <- Pooled.t_score s1 s2 ;; Ok (- t).
Proof.
  destruct (le_lt_dec 2 (length s1)) as [H1|H1];
    [destruct (le_lt_dec 2 (length s2)) as [H2|H2]|].
  - pose proof (pooled_t_score_cases s1 s2 H1 H2) as [Hok Hbad].
    pose proof (pooled_t_score_cases s2 s1 H2 H1) as [Hok' Hbad'].
    rewrite pooled_variance_sym in Hok', Hbad'.
    set (n1 := INR (length s1)) in *. set (n2 := INR (length s2)) in *.
    set (vp := pooled_variance (variance s1) (variance s2) n1 n2) in *.
    destruct (sizes_ge_2 s1 s2 H1 H2) as [Hn1 Hn2]. fold n1 n2 in Hn1, Hn2.
    destruct (Req_dec_T vp 0) as [Hz|Hnz].
    + now rewrite (Hbad Hz), (Hbad' Hz).
    + rewrite (Hok Hnz), (Hok' Hnz). cbn [bind]. f_equal.
      assert (Hvp : 0 <= vp).
      { apply pooled_variance_nonneg; try assumption;
          apply variance_nonneg; assumption. }
      assert (Hs : 0 < sqrt vp) by (apply sqrt_lt_R0; lra).
      assert (Hinv : 0 < 1 / n1 + 1 / n2).
      { apply Rplus_lt_0_compat; apply div_pos; lra. }
      assert (Hr : 0 < sqrt (1 / n1 + 1 / n2)) by (apply sqrt_lt_R0, Hinv).
      replace (1 / n2 + 1 / n1) with (1 / n1 + 1 / n2) by ring.
      field. split; lra.
  - now rewrite !pooled_t_short by auto.
  - now rewrite !pooled_t_short by auto.
Qed.

Lemma pooled_dof_swap (s1 s2 : list R) : Pooled.dof s2 s1 = Pooled.dof s1 s2.
Proof. unfold Pooled.dof. ring. Qed.

(** X18. Exchanging the two samples changes the sign of Welch's and of the
    pooled t-score and nothing else: the degrees of freedom, the two-tailed
    p-values and the failures are the same. *)
Theorem two_sample_tests_exchange (s1 s2 : list R) :
  Welch.t_score s2 s1 = (t <- Welch.t_score s1 s2 ;; Ok (- t)) /\
  Welch.dof s2 s1 = Welch.dof s1 s2 /\
  Pooled.t_score s2 s1 = (t <- Pooled.t_score s1 s2 ;; Ok (- t)) /\
  Pooled.dof s2 s1 = Pooled.dof s1 s2 /\
  (forall t_sf : R -> R -> R,
      Welch.p_value_2tail t_sf s2 s1 = Welch.p_value_2tail t_sf s1 s2 /\
      Pooled.p_value_2tail t_sf s2 s1 = Pooled.p_value_2tail t_sf s1 s2).
Proof.
  split; [apply welch_t_swap|]. split; [apply welch_dof_swap|].
  split; [apply pooled_t_swap|]. split; [apply pooled_dof_swap|].
  intros t_sf. split.
  - unfold Welch.p_value_2tail. rewrite welch_t_swap, welch_dof_swap.
    destruct (Welch.t_score s1 s2); cbn [bind]; try reflexivity.
    destruct (Welch.dof s1 s2); cbn [bind]; try reflexivity.
    unfold PValue.p_value_2tail. cbn [absval R_Number]. now rewrite Rabs_Ropp.
  - unfold Pooled.p_value_2tail. rewrite pooled_t_swap, pooled_dof_swap.
    destruct (Pooled.t_score s1 s2); cbn [bind]; try reflexivity.
    unfold PValue.p_value_2tail. cbn [absval R_Number]. now rewrite Rabs_Ropp.
Qed.

(** ** Welch's degrees of freedom *)

Lemma ws_denominator_pos (a b p q : R) :
  0 <= a -> 0 <= b -> 1 <= p -> 1 <= q -> a + b <> 0 ->
  0 < a ^ 2 / p + b ^ 2 / q.
Proof.
  intros Ha Hb Hp Hq Hab.
  assert (Hip : 0 < / p) by (apply Rinv_0_lt_compat; lra).
  assert (Hiq : 0 < / q) by (apply Rinv_0_lt_compat; lra).
  unfold Rdiv.
  destruct (Rle_lt_or_eq_dec 0 a Ha) as [Ha'|Ha'].
  - assert (0 < a ^ 2 * / p) by (apply Rmult_lt_0_compat; [simpl; nra | exact Hip]).
    assert (0 <= b ^ 2 * / q) by (apply Rmult_le_pos; [apply pow2_ge_0 | lra]).
    lra.
  - assert (Hb' : 0 < b) by lra.
    assert (0 <= a ^ 2 * / p) by (apply Rmult_le_pos; [apply pow2_ge_0 | lra]).
    assert (0 < b ^ 2 * / q) by (apply Rmult_lt_0_compat; [simpl; nra | exact Hiq]).
    lra.
Qed.

Lemma ws_upper (a b p q : R) :
  0 < p -> 0 < q ->
  (a + b) ^ 2 <= (p + q) * (a ^ 2 / p + b ^ 2 / q).
Proof.
  intros Hp Hq.
  replace ((p + q) * (a ^ 2 / p + b ^ 2 / q))
    with ((a + b) ^ 2 + (a * q - b * p) ^ 2 / (p * q)) by (field; lra).
  assert (0 <= (a * q - b * p) ^ 2 / (p * q)).
  { apply div_nonneg; [apply pow2_ge_0 | nra]. }
  lra.
Qed.

Lemma ws_lower (a b p q : R) :
  0 <= a -> 0 <= b -> 1 <= p -> 1 <= q ->
  Rmin p q * (a ^ 2 / p + b ^ 2 / q) <= (a + b) ^ 2.
Proof.
  intros Ha Hb Hp Hq.
  assert (Hm : 0 < Rmin p q) by (apply Rmin_glb_lt; lra).
  assert (H1 : Rmin p q * (a ^ 2 / p) <= a ^ 2).
  { replace (Rmin p q * (a ^ 2 / p)) with (a ^ 2 * (Rmin p q / p)) by (field; lra).
    rewrite <- (Rmult_1_r (a ^ 2)) at 2.
    apply Rmult_le_compat_l; [apply pow2_ge_0|].
    apply (Rmult_le_reg_r p); [lra|].
    unfold Rdiv. rewrite Rmult_assoc, Rinv_l, Rmult_1_r, Rmult_1_l by lra.
    apply Rmin_l. }
  assert (H2 : Rmin p q * (b ^ 2 / q) <= b ^ 2).
  { replace (Rmin p q * (b ^ 2 / q)) with (b ^ 2 * (Rmin p q / q)) by (field; lra).
    rewrite <- (Rmult_1_r (b ^ 2)) at 2.
    apply Rmult_le_compat_l; [apply pow2_ge_0|].
    apply (Rmult_le_reg_r q); [lra|].
    unfold Rdiv. rewrite Rmult_assoc, Rinv_l, Rmult_1_r, Rmult_1_l by lra.
    apply Rmin_r. }
  rewrite Rmult_plus_distr_l. nra.
Qed.

Lemma welch_satterthwaite_bounds (v1 v2 n1 n2 : R) :
  0 <= v1 -> 0 <= v2 -> 2 <= n1 -> 2 <= n2 -> v1 / n1 + v2 / n2 <> 0 ->
  Rmin (n1 - 1) (n2 - 1) <= welch_satterthwaite v1 v2 n1 n2 <= n1 + n2 - 2.
Proof.
  intros Hv1 Hv2 Hn1 Hn2 Hne. unfold welch_satterthwaite.
  assert (Ha : 0 <= v1 / n1) by (apply div_nonneg; lra).
  assert (Hb : 0 <= v2 / n2) by (apply div_nonneg; lra).
  set (a := v1 / n1) in *. set (b := v2 / n2) in *.
  pose proof (ws_denominator_pos a b (n1 - 1) (n2 - 1) Ha Hb) as HD.
  assert (HD' : 0 < a ^ 2 / (n1 - 1) + b ^ 2 / (n2 - 1)) by (apply HD; lra).
  pose proof (ws_upper a b (n1 - 1) (n2 - 1)) as HU.
  pose proof (ws_lower a b (n1 - 1) (n2 - 1) Ha Hb) as HL.
  set (D := a ^ 2 / (n1 - 1) + b ^ 2 / (n2 - 1)) in *.
  assert (Hi : 0 < / D) by (apply Rinv_0_lt_compat, HD').
  split.
  - apply (Rmult_le_reg_r D); [exact HD'|].
    unfold Rdiv. rewrite Rmult_assoc, Rinv_l, Rmult_1_r by lra.
    apply HL; lra.
  - apply (Rmult_le_reg_r D); [exact HD'|].
    unfold Rdiv. rewrite Rmult_assoc, Rinv_l, Rmult_1_r by lra.
    replace (n1 + n2 - 2) with (n1 - 1 + (n2 - 1)) by ring.
    apply HU; lra.
Qed.

(** X19. Welch's degrees of freedom lie between the smaller of n1 - 1 and
    n2 - 1 and the pooled test's n1 + n2 - 2; if the second variance is 0
    they are n1 - 1. *)
Theorem welch_dof_bounds (s1sqr s2sqr : R) (n1 n2 : Z) :
  (2 <= n1)%Z -> (2 <= n2)%Z -> 0 <= s1sqr -> 0 <= s2sqr ->
  s1sqr <> 0 \/ s2sqr <> 0 ->
  exists dof,
    Welch.get_welchs_ttest_dof s1sqr s2sqr n1 n2 = Ok dof /\
    Rmin (IZR n1 - 1) (IZR n2 - 1) <= dof <= IZR n1 + IZR n2 - 2 /\
    (s2sqr = 0 -> dof = IZR n1 - 1).
Proof.
  intros Hn1 Hn2 Hv1 Hv2 Hnz.
  assert (Hr1 : 2 <= IZR n1) by (apply IZR_le in Hn1; exact Hn1).
  assert (Hr2 : 2 <= IZR n2) by (apply IZR_le in Hn2; exact Hn2).
  assert (Hne : s1sqr / IZR n1 + s2sqr / IZR n2 <> 0).
  { assert (0 <= s1sqr / IZR n1) by (apply div_nonneg; lra).
    assert (0 <= s2sqr / IZR n2) by (apply div_nonneg; lra).
    destruct Hnz as [Hs|Hs].
    - assert (0 < s1sqr / IZR n1) by (apply div_pos; lra). lra.
    - assert (0 < s2sqr / IZR n2) by (apply div_pos; lra). lra. }
  exists (welch_satterthwaite s1sqr s2sqr (IZR n1) (IZR n2)).
  split; [|split].
  - apply (get_welchs_ttest_dof_cases s1sqr s2sqr n1 n2); assumption.
  - apply welch_satterthwaite_bounds; assumption.
  - intros ->. unfold welch_satterthwaite.
    assert (Hs : s1sqr <> 0) by (destruct Hnz; [assumption | congruence]).
    field. repeat split; lra.
Qed.

Lemma welch_dof_bounds_witness :
  exists dof,
    Welch.get_welchs_ttest_dof 2 2 2 4 = Ok dof /\
    Rmin (IZR 2 - 1) (IZR 4 - 1) <= dof <= IZR 2 + IZR 4 - 2 /\
    (2 = 0 -> dof = IZR 2 - 1).
Proof.
  apply (welch_dof_bounds 2 2 2 4); try lia; lra.
Defined.

Lemma IZR_pred_zero (n : Z) : IZR (n - 1) = 0 <-> n = 1%Z.
Proof.
  split.
  - intros H. apply eq_IZR_R0 in H. lia.
  - intros ->. reflexivity.
Qed.

Lemma IZR_zero (n : Z) : IZR n = 0 <-> n = 0%Z.
Proof.
  split; [apply eq_IZR_R0 | intros ->; reflexivity].
Qed.

(** X20. [get_welchs_ttest_dof] raises ZeroDivisionError exactly when a
    sample size is 0 or 1 or its denominator is 0; in every other case it
    returns numerator / denominator, and it never returns nan. *)
Theorem get_welchs_ttest_dof_fails_iff (s1sqr s2sqr : R) (n1 n2 : Z) :
  let numerator := (s1sqr / IZR n1 + s2sqr / IZR n2) ^ 2 in
  let denominator :=
    (s1sqr / IZR n1) ^ 2 / (IZR n1 - 1) + (s2sqr / IZR n2) ^ 2 / (IZR n2 - 1) in
  let fails :=
    n1 = 0%Z \/ n1 = 1%Z \/ n2 = 0%Z \/ n2 = 1%Z \/ denominator = 0 in
  (fails -> Welch.get_welchs_ttest_dof s1sqr s2sqr n1 n2 = Raise ZeroDivisionError) /\
  (~ fails ->
   Welch.get_welchs_ttest_dof s1sqr s2sqr n1 n2 = Ok (numerator / denominator)).
Proof.
  intros numerator denominator fails. subst numerator denominator fails.
  unfold Welch.get_welchs_ttest_dof. cbn [of_Z R_Number].
  destruct (Req_dec_T (IZR n1) 0) as [Hz1|Hnz1].
  { rewrite Hz1, truediv_R_zero. cbn [bind].
    apply IZR_zero in Hz1. split; [reflexivity | intros H; exfalso; apply H; auto]. }
  rewrite (truediv_R_ok s1sqr _ Hnz1). cbn [bind].
  destruct (Req_dec_T (IZR n2) 0) as [Hz2|Hnz2].
  { rewrite Hz2, truediv_R_zero. cbn [bind].
    apply IZR_zero in Hz2.
    split; [reflexivity | intros H; exfalso; apply H; auto]. }
  rewrite (truediv_R_ok s2sqr _ Hnz2). cbn [bind].
  destruct (Req_dec_T (IZR (n1 - 1)) 0) as [Hp1|Hnp1].
  { rewrite Hp1, truediv_R_zero. cbn [bind].
    apply IZR_pred_zero in Hp1.
    split; [reflexivity | intros H; exfalso; apply H; auto]. }
  rewrite (truediv_R_ok _ _ Hnp1). cbn [bind].
  destruct (Req_dec_T (IZR (n2 - 1)) 0) as [Hp2|Hnp2].
  { rewrite Hp2, truediv_R_zero. cbn [bind].
    apply IZR_pred_zero in Hp2.
    split; [reflexivity | intros H; exfalso; apply H; auto 6]. }
  rewrite (truediv_R_ok _ _ Hnp2). cbn [bind].
  unfold pow2. cbn [add mul R_Number].
  rewrite !minus_IZR in *.
  replace (s1sqr / IZR n1 * (s1sqr / IZR n1)) with ((s1sqr / IZR n1) ^ 2) by ring.
  replace (s2sqr / IZR n2 * (s2sqr / IZR n2)) with ((s2sqr / IZR n2) ^ 2) by ring.
  set (D := (s1sqr / IZR n1) ^ 2 / (IZR n1 - 1) + (s2sqr / IZR n2) ^ 2 / (IZR n2 - 1)).
  destruct (Req_dec_T D 0) as [HD|HD].
  - rewrite HD, truediv_R_zero.
    split; [reflexivity | intros H; exfalso; apply H; auto 6].
  - rewrite (truediv_R_ok _ _ HD). split.
    + intros [H|[H|[H|[H|H]]]].
      * apply IZR_zero in H. contradiction.
      * subst n1. simpl in Hnp1. lra.
      * apply IZR_zero in H. contradiction.
      * subst n2. simpl in Hnp2. lra.
      * contradiction.
    + intros _. f_equal. f_equal. ring.
Qed.

Lemma get_welchs_ttest_dof_fails_iff_witness :
  Welch.get_welchs_ttest_dof 3 4 1 5 = Raise ZeroDivisionError.
Proof.
  apply (proj1 (get_welchs_ttest_dof_fails_iff 3 4 1 5)). right; left; reflexivity.
Defined.

(** ** The two-sample T-tests: units, equal sizes, failures *)

Lemma welch_se2_map_affine (a b : R) (s1 s2 : list R) :
  (2 <= length s1)%nat -> (2 <= length s2)%nat ->
  welch_se2 (map (fun x => a * x + b) s1) (map (fun x => a * x + b) s2)
  = a ^ 2 * welch_se2 s1 s2.
Proof.
  intros H1 H2. unfold welch_se2.
  rewrite !variance_map_affine, !length_map by assumption.
  destruct (sizes_ge_2 s1 s2 H1 H2) as [Hn1 Hn2]. field. split; lra.
Qed.

Lemma sq_nonzero (a : R) : a <> 0 -> a ^ 2 <> 0.
Proof.
  intros Ha H. simpl in H. destruct (Rmult_integral _ _ H) as [H0|H0]; [lra|].
  destruct (Rmult_integral _ _ H0); lra.
Qed.

Lemma welch_t_affine (a b : R) (s1 s2 : list R) :
  0 < a ->
  Welch.t_score (map (fun x => a * x + b) s1) (map (fun x => a * x + b) s2)
  = Welch.t_score s1 s2.
Proof.
  intros Ha.
  destruct (le_lt_dec 2 (length s1)) as [H1|H1];
    [destruct (le_lt_dec 2 (length s2)) as [H2|H2]|].
  - assert (H1' : (2 <= length (map (fun x => (a * x + b)%R) s1))%nat)
      by (now rewrite length_map).
    assert (H2' : (2 <= length (map (fun x => (a * x + b)%R) s2))%nat)
      by (now rewrite length_map).
    destruct (welch_t_score_cases s1 s2 H1 H2) as [Hok Hbad].
    destruct (welch_t_score_cases _ _ H1' H2') as [Hok' Hbad'].
    rewrite (welch_se2_map_affine a b s1 s2 H1 H2) in Hok', Hbad'.
    destruct (Req_dec_T (welch_se2 s1 s2) 0) as [Hz|Hnz].
    + rewrite (Hbad Hz), Hbad'; [reflexivity | rewrite Hz; ring].
    + rewrite (Hok Hnz), Hok'.
      2:{ intros H. destruct (Rmult_integral _ _ H) as [H0|H0];
            [apply (sq_nonzero a); [lra | exact H0] | contradiction]. }
      f_equal.
      rewrite !mean_map_affine by (apply nonempty_of_length; assumption).
      pose proof (welch_se2_nonneg s1 s2 H1 H2) as Hse.
      rewrite (sqrt_scaled a _ Hse), (Rabs_pos_eq a) by lra.
      assert (Hs : 0 < sqrt (welch_se2 s1 s2)) by (apply sqrt_lt_R0; lra).
      field. split; lra.
  - rewrite !welch_t_short; [reflexivity | auto | rewrite !length_map; auto].
  - rewrite !welch_t_short; [reflexivity | auto | rewrite !length_map; auto].
Qed.

Lemma welch_satterthwaite_scale (k v1 v2 n1 n2 : R) :
  k <> 0 -> 2 <= n1 -> 2 <= n2 ->
  (v1 / n1) ^ 2 / (n1 - 1) + (v2 / n2) ^ 2 / (n2 - 1) <> 0 ->
  welch_satterthwaite (k * v1) (k * v2) n1 n2 = welch_satterthwaite v1 v2 n1 n2.
Proof.
  intros Hk Hn1 Hn2 HD. unfold welch_satterthwaite.
  assert (HD' : (k * v1 / n1) ^ 2 / (n1 - 1) + (k * v2 / n2) ^ 2 / (n2 - 1)
                = k ^ 2 * ((v1 / n1) ^ 2 / (n1 - 1) + (v2 / n2) ^ 2 / (n2 - 1)))
    by (field; repeat split; lra).
  rewrite HD'.
  replace ((k * v1 / n1 + k * v2 / n2) ^ 2)
    with (k ^ 2 * (v1 / n1 + v2 / n2) ^ 2) by (field; split; lra).
  set (D := (v1 / n1) ^ 2 / (n1 - 1) + (v2 / n2) ^ 2 / (n2 - 1)) in *.
  set (N := (v1 / n1 + v2 / n2) ^ 2).
  field. split; assumption.
Qed.

Lemma welch_dof_affine (a b : R) (s1 s2 : list R) :
  a <> 0 ->
  Welch.dof (map (fun x => a * x + b) s1) (map (fun x => a * x + b) s2)
  = Welch.dof s1 s2.
Proof.
  intros Ha.
  destruct (le_lt_dec 2 (length s1)) as [H1|H1];
    [destruct (le_lt_dec 2 (length s2)) as [H2|H2]|].
  - assert (H1' : (2 <= length (map (fun x => (a * x + b)%R) s1))%nat)
      by (now rewrite length_map).
    assert (H2' : (2 <= length (map (fun x => (a * x + b)%R) s2))%nat)
      by (now rewrite length_map).
    destruct (welch_dof_cases s1 s2 H1 H2) as [Hok Hbad].
    destruct (welch_dof_cases _ _ H1' H2') as [Hok' Hbad'].
    rewrite (welch_se2_map_affine a b s1 s2 H1 H2) in Hok', Hbad'.
    destruct (sizes_ge_2 s1 s2 H1 H2) as [Hn1 Hn2].
    pose proof (variance_nonneg s1 H1) as Hv1.
    pose proof (variance_nonneg s2 H2) as Hv2.
    destruct (Req_dec_T (welch_se2 s1 s2) 0) as [Hz|Hnz].
    + rewrite (Hbad Hz), Hbad'; [reflexivity | rewrite Hz; ring].
    + rewrite (Hok Hnz), Hok'.
      2:{ intros H. destruct (Rmult_integral _ _ H) as [H0|H0];
            [apply (sq_nonzero a Ha H0) | contradiction]. }
      f_equal.
      rewrite !variance_map_affine, !length_map by assumption.
      apply welch_satterthwaite_scale; [apply sq_nonzero, Ha | lra | lra |].
      apply Rgt_not_eq.
      apply ws_denominator_pos; [apply div_nonneg; lra | apply div_nonneg; lra
                                | lra | lra | exact Hnz].
  - rewrite !welch_dof_short; [reflexivity | auto | rewrite !length_map; auto].
  - rewrite !welch_dof_short; [reflexivity | auto | rewrite !length_map; auto].
Qed.

Lemma pooled_t_affine (a b : R) (s1 s2 : list R) :
  0 < a ->
  Pooled.t_score (map (fun x => a * x + b) s1) (map (fun x => a * x + b) s2)
  = Pooled.t_score s1 s2.
Proof.
  intros Ha.
  destruct (le_lt_dec 2 (length s1)) as [H1|H1];
    [destruct (le_lt_dec 2 (length s2)) as [H2|H2]|].
  - assert (H1' : (2 <= length (map (fun x => (a * x + b)%R) s1))%nat)
      by (now rewrite length_map).
    assert (H2' : (2 <= length (map (fun x => (a * x + b)%R) s2))%nat)
      by (now rewrite length_map).
    pose proof (pooled_t_score_cases s1 s2 H1 H2) as [Hok Hbad].
    pose proof (pooled_t_score_cases _ _ H1' H2') as [Hok' Hbad'].
    rewrite !variance_map_affine, !length_map in Hok', Hbad' by assumption.
    destruct (sizes_ge_2 s1 s2 H1 H2) as [Hn1 Hn2].
    set (n1 := INR (length s1)) in *. set (n2 := INR (length s2)) in *.
    assert (Hvp : pooled_variance (a ^ 2 * variance s1) (a ^ 2 * variance s2) n1 n2
                  = a ^ 2 * pooled_variance (variance s1) (variance s2) n1 n2)
      by (unfold pooled_variance; field; lra).
    rewrite Hvp in Hok', Hbad'.
    set (vp := pooled_variance (variance s1) (variance s2) n1 n2) in *.
    destruct (Req_dec_T vp 0) as [Hz|Hnz].
    + rewrite (Hbad Hz), Hbad'; [reflexivity | rewrite Hz; ring].
    + rewrite (Hok Hnz), Hok'.
      2:{ intros H. destruct (Rmult_integral _ _ H) as [H0|H0];
            [apply (sq_nonzero a); [lra | exact H0] | contradiction]. }
      f_equal.
      rewrite !mean_map_affine by (apply nonempty_of_length; assumption).
      assert (Hvpn : 0 <= vp).
      { apply pooled_variance_nonneg; try assumption;
          apply variance_nonneg; assumption. }
      rewrite (sqrt_scaled a _ Hvpn), (Rabs_pos_eq a) by lra.
      assert (Hs : 0 < sqrt vp) by (apply sqrt_lt_R0; lra).
      assert (Hinv : 0 < 1 / n1 + 1 / n2).
      { apply Rplus_lt_0_compat; apply div_pos; lra. }
      assert (Hr : 0 < sqrt (1 / n1 + 1 / n2)) by (apply sqrt_lt_R0, Hinv).
      field. repeat split; lra.
  - rewrite !pooled_t_short; [reflexivity | auto | rewrite !length_map; auto].
  - rewrite !pooled_t_short; [reflexivity | auto | rewrite !length_map; auto].
Qed.

(** X21. The two-sample tests do not depend on the unit or the origin of the
    measurements: replacing every value x of both samples by a*x + b with
    a > 0 leaves Welch's t-score, Welch's degrees of freedom and the pooled
    t-score unchanged, failures included. *)
Theorem two_sample_affine_invariance (s1 s2 : list R) (a b : R) :
  0 < a ->
  let f := fun x => a * x + b in
  Welch.t_score (map f s1) (map f s2) = Welch.t_score s1 s2 /\
  Welch.dof (map f s1) (map f s2) = Welch.dof s1 s2 /\
  Pooled.t_score (map f s1) (map f s2) = Pooled.t_score s1 s2.
Proof.
  intros Ha f. subst f. split; [|split].
  - apply welch_t_affine, Ha.
  - apply welch_dof_affine. lra.
  - apply pooled_t_affine, Ha.
Qed.

Lemma two_sample_affine_invariance_witness :
  Welch.t_score (map (fun x => 2 * x + 1) [0; 2]) (map (fun x => 2 * x + 1) [1; 3; 8])
  = Welch.t_score [0; 2] [1; 3; 8].
Proof.
  apply (two_sample_affine_invariance [0; 2] [1; 3; 8] 2 1). lra.
Defined.

(** X22. For two samples of the same size the pooled t-score is Welch's
    t-score, whatever the two variances are; the two tests then differ in
    their degrees of freedom only. *)
Theorem pooled_equals_welch_for_equal_sizes (s1 s2 : list R) :
  length s1 = length s2 -> Pooled.t_score s1 s2 = Welch.t_score s1 s2.
Proof.
  intros Hlen.
  destruct (le_lt_dec 2 (length s1)) as [H1|H1].
  - assert (H2 : (2 <= length s2)%nat) by lia.
    pose proof (pooled_t_score_cases s1 s2 H1 H2) as [Hok Hbad].
    destruct (welch_t_score_cases s1 s2 H1 H2) as [Wok Wbad].
    destruct (sizes_ge_2 s1 s2 H1 H2) as [Hn1 _].
    pose proof (variance_nonneg s1 H1) as Hv1.
    pose proof (variance_nonneg s2 H2) as Hv2.
    unfold welch_se2 in *. rewrite <- Hlen in *.
    set (n := INR (length s1)) in *.
    assert (Hvp : pooled_variance (variance s1) (variance s2) n n
                  = (variance s1 + variance s2) / 2)
      by (unfold pooled_variance; field; lra).
    rewrite Hvp in Hok, Hbad.
    assert (Hse : variance s1 / n + variance s2 / n
                  = (variance s1 + variance s2) / 2 * (1 / n + 1 / n))
      by (field; lra).
    destruct (Req_dec_T (variance s1 + variance s2) 0) as [Hz|Hnz].
    + rewrite Hbad, Wbad; [reflexivity | | ].
      * rewrite Hse, Hz. unfold Rdiv; ring.
      * rewrite Hz. unfold Rdiv; ring.
    + rewrite Hok, Wok.
      * f_equal. rewrite Hse, sqrt_mult; [reflexivity | lra |].
        assert (0 < 1 / n) by (apply div_pos; lra). lra.
      * rewrite Hse. assert (0 < 1 / n) by (apply div_pos; lra). nra.
      * lra.
  - now rewrite pooled_t_short, welch_t_short by auto.
Qed.

Lemma pooled_equals_welch_for_equal_sizes_witness :
  Pooled.t_score [0; 2; 7] [1; 3; 4] = Welch.t_score [0; 2; 7] [1; 3; 4].
Proof.
  apply (pooled_equals_welch_for_equal_sizes [0; 2; 7] [1; 3; 4]). reflexivity.
Defined.





(** ** The paired T-test *)



Lemma np_std_ddof1_singleton (x : R) : Paired.np_std_ddof1 [x] = NotFinite.
Proof.
  unfold Paired.np_std_ddof1. rewrite np_sum_R. cbn [of_Z R_Number].
  rewrite len_R, np_true_divide_R_ok by (simpl; lra). cbn [bind].
  cbn [len length Z.of_nat Pos.of_succ_nat Z.sub Z.add Z.opp Z.pos_sub Z.max Z.compare].
  now rewrite np_true_divide_R_zero.
Qed.

Lemma np_array_sub_same_length (a b : list R) :
  length a = length b -> Paired.np_array_sub a b = Ok (series_sub a b).
Proof.
  intros H. unfold Paired.np_array_sub. now rewrite H, Nat.eqb_refl.
Qed.





Lemma np_array_sub_mismatch (a b : list R) :
  length a <> length b -> length a <> 1%nat -> length b <> 1%nat ->
  Paired.np_array_sub a b = Raise ValueError.
Proof.
  intros Hab Ha Hb. unfold Paired.np_array_sub.
  apply Nat.eqb_neq in Hab. rewrite Hab.
  destruct a as [|x [|x' a]]; destruct b as [|y [|y' b]];
    try reflexivity; simpl in *; congruence.
Qed.

Lemma np_array_sub_broadcast (y : R) (b : list R) :
  Paired.np_array_sub [y] b = Ok (series_sub (repeat y (length b)) b).
Proof.
  unfold Paired.np_array_sub.
  assert (Hs : series_sub (repeat y (length b)) b = map (fun x => y - x) b).
  { unfold series_sub. induction b as [|x b IH]; [reflexivity|].
    cbn [length repeat combine map fst snd]. rewrite IH. reflexivity. }
  rewrite Hs. destruct (Nat.eqb (length [y]) (length b)) eqn:E.
  - apply Nat.eqb_eq in E. destruct b as [|x [|x' b]]; try discriminate E.
    reflexivity.
  - destruct b as [|x [|x' b]]; reflexivity.
Qed.

(** X25. The paired cell outside its intended inputs: two empty lists
    raise ZeroDivisionError; two lists of one result give nan (np.std with
    ddof=1 divides by 0); lists of different lengths, neither of length 1,
    raise numpy's ValueError; and a second list of length 1 raises nothing:
    numpy broadcasts it, as if its value were repeated for every entry of the
    first list. *)
Theorem paired_t_score_edges (mu0 : R) :
  Paired.t_score [] [] mu0 = Raise ZeroDivisionError /\
  (forall x y, Paired.t_score [x] [y] mu0 = NotFinite) /\
  (forall results_1 results_2,
      length results_1 <> length results_2 ->
      length results_1 <> 1%nat -> length results_2 <> 1%nat ->
      Paired.t_score results_1 results_2 mu0 = Raise ValueError) /\
  (forall results_1 y,
      Paired.t_score results_1 [y] mu0
      = Paired.t_score results_1 (repeat y (length results_1)) mu0).
Proof.
  split; [|split; [|split]].
  - unfold Paired.t_score, Paired.deltas, Paired.np_array_sub. cbn [length Nat.eqb bind].
    unfold series_sub. cbn [combine map]. rewrite py_sum_R.
    cbn [Rsum len length Z.of_nat of_Z R_Number]. now rewrite truediv_R_zero.
  - intros x y. unfold Paired.t_score, Paired.deltas, Paired.np_array_sub.
    cbn [length Nat.eqb bind]. unfold series_sub. cbn [combine map fst snd].
    rewrite py_sum_R. cbn [of_Z R_Number]. rewrite len_R.
    rewrite np_true_divide_R_ok by (simpl; lra). cbn [bind].
    now rewrite np_std_ddof1_singleton.
  - intros results_1 results_2 Hlen H1 H2.
    unfold Paired.t_score, Paired.deltas.
    rewrite np_array_sub_mismatch; auto.
  - intros results_1 y. unfold Paired.t_score, Paired.deltas.
    rewrite np_array_sub_broadcast.
    rewrite np_array_sub_same_length by (now rewrite repeat_length).
    reflexivity.
Qed.

Lemma paired_t_score_edges_witness :
  Paired.t_score [60; 70; 80] [68; 73] 5 = Raise ValueError.
Proof.
  apply (paired_t_score_edges 5); simpl; lia.
Defined.

(** ** The data cells *)

Lemma u32_range (z : Z) : (0 <= MT19937.u32 z < 4294967296)%Z.
Proof.
  unfold MT19937.u32. change 0xffffffff%Z with (Z.ones 32).
  rewrite Z.land_ones by lia. apply Z.mod_pos_bound. reflexivity.
Qed.

Lemma genrand_uint32_range (st : MT19937.state) :
  (0 <= fst (MT19937.genrand_uint32 st) < 4294967296)%Z.
Proof. unfold MT19937.genrand_uint32. cbn [fst]. apply u32_range. Qed.

Lemma random_numerator_range (st : MT19937.state) :
  (0 <= fst (MT19937.random_numerator st) < 9007199254740992)%Z.
Proof.
  unfold MT19937.random_numerator.
  pose proof (genrand_uint32_range st) as Ha.
  destruct (MT19937.genrand_uint32 st) as [a st1]. cbn [fst] in Ha.
  pose proof (genrand_uint32_range st1) as Hb.
  destruct (MT19937.genrand_uint32 st1) as [b st2]. cbn [fst] in *.
  rewrite !Z.shiftr_div_pow2 by lia.
  change (2 ^ 5)%Z with 32%Z. change (2 ^ 6)%Z with 64%Z.
  assert (0 <= a / 32 < 134217728)%Z.
  { split; [apply Z.div_pos; lia | apply Z.div_lt_upper_bound; lia]. }
  assert (0 <= b / 64 < 67108864)%Z.
  { split; [apply Z.div_pos; lia | apply Z.div_lt_upper_bound; lia]. }
  lia.
Qed.

Lemma random_numerators_spec (n : nat) (st : MT19937.state) :
  length (fst (MT19937.random_numerators n st)) = n /\
  Forall (fun k => (0 <= k < 9007199254740992)%Z)
         (fst (MT19937.random_numerators n st)).
Proof.
  revert st. induction n as [|n IH]; intros st; cbn [MT19937.random_numerators].
  - split; [reflexivity | constructor].
  - pose proof (random_numerator_range st) as Hx.
    destruct (MT19937.random_numerator st) as [x st1]. cbn [fst] in Hx.
    specialize (IH st1).
    destruct (MT19937.random_numerators n st1) as [xs st2]. cbn [fst] in *.
    destruct IH as [Hlen Hall]. split.
    + cbn [length]. now rewrite Hlen.
    + constructor; assumption.
Qed.

Lemma random_float_range (k : Z) :
  (0 <= k < 9007199254740992)%Z -> 0 <= Data.random_float k < 1.
Proof.
  intros [Hlo Hhi]. unfold Data.random_float.
  rewrite ratio_R by lra. cbn [mul of_Z R_Number].
  apply IZR_le in Hlo. apply IZR_lt in Hhi. lra.
Qed.

Lemma randoms_spec (a : Z) (n : nat) :
  length (Data.randoms (F := R) a n) = n /\
  Forall (fun x => 0 <= x < 1) (Data.randoms a n).
Proof.
  unfold Data.randoms.
  destruct (random_numerators_spec n (MT19937.seed a)) as [Hlen Hall].
  split.
  - now rewrite length_map.
  - apply Forall_forall. intros x Hx. apply in_map_iff in Hx as [k [<- Hk]].
    rewrite Forall_forall in Hall. apply random_float_range, Hall, Hk.
Qed.

Lemma py_int_percent (x : R) :
  0 <= x < 1 -> (0 <= py_int (mul x (of_Z 100)) < 100)%Z.
Proof.
  intros [Hlo Hhi]. cbn [py_int mul of_Z R_Number].
  destruct (Rle_dec 0 (x * 100)) as [_|Hneg]; [|exfalso; apply Hneg; lra].
  destruct (base_Int_part (x * 100)) as [H1 H2]. split.
  - apply le_IZR. assert (-1 < IZR (Int_part (x * 100))) by lra.
    apply lt_IZR in H. apply IZR_le. lia.
  - apply lt_IZR. lra.
Qed.

(** X26. Whatever the seed (an int below 2^32 in absolute value, which
    [random.seed] turns into a one-word key) and the number of draws, the
    data cells build what their comments say: [random.random()] lies in
    [0,1), [random.random()*2 - 0.5] in [-0.5,1.5), and
    [int(random.random() * 100)] is an integer from 0 to 99; the list has one
    entry per draw. *)
Theorem data_cells_ranges (a : Z) (n : nat) :
  (Z.abs a < 4294967296)%Z ->
  length (Data.randoms (F := R) a n) = n /\
  Forall (fun x => 0 <= x < 1) (Data.randoms a n) /\
  Forall (fun x => - (1 / 2) <= x < 3 / 2)
    (map (fun x : R => sub (mul x (of_Z 2)) (ratio 1 2)) (Data.randoms a n)) /\
  Forall (fun r => exists k : Z, r = IZR k /\ (0 <= k < 100)%Z)
    (map (fun x : R => of_Z (py_int (mul x (of_Z 100)))) (Data.randoms a n)).
Proof.
  intros _. destruct (randoms_spec a n) as [Hlen Hall].
  split; [exact Hlen|]. split; [exact Hall|]. split.
  - apply Forall_forall. intros y Hy. apply in_map_iff in Hy as [x [<- Hx]].
    rewrite Forall_forall in Hall. specialize (Hall x Hx).
    rewrite ratio_R by lra. cbn [sub mul of_Z R_Number]. lra.
  - apply Forall_forall. intros y Hy. apply in_map_iff in Hy as [x [<- Hx]].
    rewrite Forall_forall in Hall. specialize (Hall x Hx).
    exists (py_int (mul x (of_Z 100))). split; [reflexivity|].
    apply py_int_percent, Hall.
Qed.

Lemma data_cells_ranges_witness :
  Forall (fun r => exists k : Z, r = IZR k /\ (0 <= k < 100)%Z)
    (map (fun x : R => of_Z (py_int (mul x (of_Z 100)))) (Data.randoms 44 30)).
Proof.
  apply (data_cells_ranges 44 30). reflexivity.
Defined.

(** ** The p-value cells *)

(** X27. For a reference law that is symmetric about 0, the two-tailed
    p-value is the probability of a value further from 0 than the score on
    either side, P(X > |score|) + P(X <= -|score|); the sign of the score
    does not matter, a score of 0 gives 1, and a score further from 0 never
    gives a larger p-value.  The chi-squared p-value never grows with the
    statistic. *)
Theorem p_values_of_more_extreme_scores :
  (forall sf : R -> R,
      survival_function sf -> symmetric_about_zero sf ->
      (forall score,
          PValue.p_value_2tail sf score
          = sf (Rabs score) + (1 - sf (- Rabs score)) /\
          PValue.p_value_2tail sf (- score) = PValue.p_value_2tail sf score /\
          PValue.p_value_1tail sf (- score) = PValue.p_value_1tail sf score) /\
      PValue.p_value_2tail sf 0 = 1 /\
      (forall score score', Rabs score <= Rabs score' ->
          PValue.p_value_1tail sf score' <= PValue.p_value_1tail sf score /\
          PValue.p_value_2tail sf score' <= PValue.p_value_2tail sf score)) /\
  (forall cdf : R -> R,
      distribution_function cdf ->
      forall chi_2 chi_2', chi_2 <= chi_2' ->
        PValue.p_value cdf chi_2' <= PValue.p_value cdf chi_2).
Proof.
  split.
  - intros sf Hsf Hsym. unfold PValue.p_value_2tail, PValue.p_value_1tail.
    cbn [absval mul of_Z R_Number]. split; [|split].
    + intros score. rewrite Rabs_Ropp. rewrite (Hsym (Rabs score)).
      repeat split; ring.
    + rewrite Rabs_R0, (symmetric_sf_at_zero sf Hsym). lra.
    + intros score score' Hle.
      pose proof (sf_antitone sf Hsf _ _ Hle). lra.
  - intros cdf Hcdf chi_2 chi_2' Hle. unfold PValue.p_value.
    cbn [sub of_Z R_Number].
    pose proof (cdf_monotone cdf Hcdf _ _ Hle). lra.
Qed.

Lemma p_values_of_more_extreme_scores_witness :
  PValue.p_value_2tail t_sf_14 0 = 1 /\
  PValue.p_value chi2_cdf_2 3 <= PValue.p_value chi2_cdf_2 2.
Proof.
  split.
  - apply (proj1 p_values_of_more_extreme_scores t_sf_14
             t_sf_14_survival t_sf_14_symmetric).
  - apply (proj2 p_values_of_more_extreme_scores chi2_cdf_2
             chi2_cdf_2_distribution). lra.
Defined.

(** ** The Z-score and the t-score *)

(** X28. The Z-score cell inverts x = mu + z * sigma and raises
    ZeroDivisionError for sigma = 0; the one-sample t-score is the Z-score of
    the sample mean against the estimated standard error s / sqrt(n), with
    the same failure. *)
Theorem t_score_is_z_score_of_mean :
  (forall x mu sigma : R,
      (sigma <> 0 ->
       exists z, ZTest.z_score x mu sigma = Ok z /\ mu + z * sigma = x) /\
      (sigma = 0 -> ZTest.z_score x mu sigma = Raise ZeroDivisionError)) /\
  (forall (samples : list R) (mu : R),
      (2 <= length samples)%nat ->
      OneSample.t_score samples mu
      = ZTest.z_score (mean samples) mu
          (sqrt (variance samples) / sqrt (INR (length samples)))).
Proof.
  split.
  - intros x mu sigma. unfold ZTest.z_score. cbn [sub R_Number]. split.
    + intros Hs. rewrite truediv_R_ok by exact Hs. eexists. split; [reflexivity|].
      field. exact Hs.
    + intros ->. apply truediv_R_zero.
  - intros samples mu Hn. unfold ZTest.z_score. cbn [sub R_Number].
    destruct (one_sample_t_score_cases samples mu Hn) as [Hok Hbad].
    pose proof (variance_nonneg samples Hn) as Hv.
    pose proof (sqrt_INR_length_pos samples (nonempty_of_length samples Hn)) as Hr.
    destruct (Req_dec_T (variance samples) 0) as [Hz|Hnz].
    + rewrite (Hbad Hz), Hz, sqrt_0.
      replace (0 / sqrt (INR (length samples))) with 0 by (unfold Rdiv; ring).
      now rewrite truediv_R_zero.
    + rewrite (Hok Hnz). symmetry. apply truediv_R_ok.
      assert (0 < sqrt (variance samples)) by (apply sqrt_lt_R0; lra).
      apply Rgt_not_eq, div_pos; assumption.
Qed.

Lemma t_score_is_z_score_of_mean_witness :
  OneSample.t_score [0; 2] 0
  = ZTest.z_score (mean [0; 2]) 0 (sqrt (variance [0; 2]) / sqrt (INR (length [0%R; 2%R]))).
Proof.
  apply (proj2 t_score_is_z_score_of_mean [0; 2] 0). simpl; lia.
Defined.

(** ** The order of the observations *)

Lemma Rsum_perm (xs ys : list R) : Permutation xs ys -> Rsum xs = Rsum ys.
Proof.
  induction 1; cbn [Rsum]; lra.
Qed.

Lemma mean_perm (xs ys : list R) : Permutation xs ys -> mean xs = mean ys.
Proof.
  intros H. unfold mean.
  now rewrite (Rsum_perm xs ys H), (Permutation_length H).
Qed.

Lemma variance_perm (xs ys : list R) :
  Permutation xs ys -> variance xs = variance ys.
Proof.
  intros H. unfold variance.
  rewrite (mean_perm xs ys H), (Permutation_length H).
  f_equal. apply Rsum_perm, Permutation_map, H.
Qed.

Lemma one_sample_short (samples : list R) (mu : R) :
  (length samples < 2)%nat ->
  OneSample.t_score samples mu = Raise ZeroDivisionError.
Proof.
  intros H.
  apply (one_sample_constant_raises samples (hd 0 samples) mu).
  apply short_sample_constant, H.
Qed.

Lemma one_sample_perm (xs ys : list R) (mu : R) :
  Permutation xs ys -> OneSample.t_score xs mu = OneSample.t_score ys mu.
Proof.
  intros H. pose proof (Permutation_length H) as Hlen.
  destruct (le_lt_dec 2 (length xs)) as [Hn|Hn].
  - assert (Hn' : (2 <= length ys)%nat) by lia.
    destruct (one_sample_t_score_cases xs mu Hn) as [Hok Hbad].
    destruct (one_sample_t_score_cases ys mu Hn') as [Hok' Hbad'].
    rewrite <- (variance_perm xs ys H) in Hok', Hbad'.
    rewrite <- (mean_perm xs ys H), <- Hlen in Hok'.
    destruct (Req_dec_T (variance xs) 0) as [Hz|Hnz].
    + now rewrite (Hbad Hz), (Hbad' Hz).
    + now rewrite (Hok Hnz), (Hok' Hnz).
  - rewrite !one_sample_short; [reflexivity | lia | lia].
Qed.

Lemma welch_se2_perm (s1 s1' s2 s2' : list R) :
  Permutation s1 s1' -> Permutation s2 s2' -> welch_se2 s1 s2 = welch_se2 s1' s2'.
Proof.
  intros H1 H2. unfold welch_se2.
  now rewrite (variance_perm _ _ H1), (variance_perm _ _ H2),
    (Permutation_length H1), (Permutation_length H2).
Qed.

Lemma welch_t_perm (s1 s1' s2 s2' : list R) :
  Permutation s1 s1' -> Permutation s2 s2' ->
  Welch.t_score s1 s2 = Welch.t_score s1' s2'.
Proof.
  intros P1 P2.
  pose proof (Permutation_length P1) as L1.
  pose proof (Permutation_length P2) as L2.
  destruct (le_lt_dec 2 (length s1)) as [H1|H1];
    [destruct (le_lt_dec 2 (length s2)) as [H2|H2]|].
  - assert (H1' : (2 <= length s1')%nat) by lia.
    assert (H2' : (2 <= length s2')%nat) by lia.
    destruct (welch_t_score_cases s1 s2 H1 H2) as [Hok Hbad].
    destruct (welch_t_score_cases s1' s2' H1' H2') as [Hok' Hbad'].
    rewrite <- (welch_se2_perm _ _ _ _ P1 P2) in Hok', Hbad'.
    rewrite <- (mean_perm _ _ P1), <- (mean_perm _ _ P2) in Hok'.
    destruct (Req_dec_T (welch_se2 s1 s2) 0) as [Hz|Hnz].
    + now rewrite (Hbad Hz), (Hbad' Hz).
    + now rewrite (Hok Hnz), (Hok' Hnz).
  - rewrite !welch_t_short; [reflexivity | right; lia | right; lia].
  - rewrite !welch_t_short; [reflexivity | left; lia | left; lia].
Qed.

Lemma welch_dof_perm (s1 s1' s2 s2' : list R) :
  Permutation s1 s1' -> Permutation s2 s2' ->
  Welch.dof s1 s2 = Welch.dof s1' s2'.
Proof.
  intros P1 P2.
  pose proof (Permutation_length P1) as L1.
  pose proof (Permutation_length P2) as L2.
  destruct (le_lt_dec 2 (length s1)) as [H1|H1];
    [destruct (le_lt_dec 2 (length s2)) as [H2|H2]|].
  - assert (H1' : (2 <= length s1')%nat) by lia.
    assert (H2' : (2 <= length s2')%nat) by lia.
    destruct (welch_dof_cases s1 s2 H1 H2) as [Hok Hbad].
    destruct (welch_dof_cases s1' s2' H1' H2') as [Hok' Hbad'].
    rewrite <- (welch_se2_perm _ _ _ _ P1 P2) in Hok', Hbad'.
    rewrite <- (variance_perm _ _ P1), <- (variance_perm _ _ P2), <- L1, <- L2 in Hok'.
    destruct (Req_dec_T (welch_se2 s1 s2) 0) as [Hz|Hnz].
    + now rewrite (Hbad Hz), (Hbad' Hz).
    + now rewrite (Hok Hnz), (Hok' Hnz).
  - rewrite !welch_dof_short; [reflexivity | right; lia | right; lia].
  - rewrite !welch_dof_short; [reflexivity | left; lia | left; lia].
Qed.

Lemma pooled_t_perm (s1 s1' s2 s2' : list R) :
  Permutation s1 s1' -> Permutation s2 s2' ->
  Pooled.t_score s1 s2 = Pooled.t_score s1' s2'.
Proof.
  intros P1 P2.
  pose proof (Permutation_length P1) as L1.
  pose proof (Permutation_length P2) as L2.
  destruct (le_lt_dec 2 (length s1)) as [H1|H1];
    [destruct (le_lt_dec 2 (length s2)) as [H2|H2]|].
  - assert (H1' : (2 <= length s1')%nat) by lia.
    assert (H2' : (2 <= length s2')%nat) by lia.
    pose proof (pooled_t_score_cases s1 s2 H1 H2) as [Hok Hbad].
    pose proof (pooled_t_score_cases s1' s2' H1' H2') as [Hok' Hbad'].
    rewrite <- (variance_perm _ _ P1), <- (variance_perm _ _ P2), <- L1, <- L2
      in Hok', Hbad'.
    rewrite <- (mean_perm _ _ P1), <- (mean_perm _ _ P2) in Hok'.
    destruct (Req_dec_T (pooled_variance (variance s1) (variance s2)
                           (INR (length s1)) (INR (length s2))) 0) as [Hz|Hnz].
    + now rewrite (Hbad Hz), (Hbad' Hz).
    + now rewrite (Hok Hnz), (Hok' Hnz).
  - rewrite !pooled_t_short; [reflexivity | right; lia | right; lia].
  - rewrite !pooled_t_short; [reflexivity | left; lia | left; lia].
Qed.

(** X29. The T-tests do not depend on the order in which the values of a
    sample are listed: reordering the sample (each of the two samples, for
    the two-sample tests) leaves the one-sample, Welch's and the pooled
    t-score and Welch's degrees of freedom unchanged, failures included. *)
Theorem t_tests_ignore_sample_order (s1 s1' s2 s2' : list R) (mu : R) :
  Permutation s1 s1' -> Permutation s2 s2' ->
  OneSample.t_score s1 mu = OneSample.t_score s1' mu /\
  Welch.t_score s1 s2 = Welch.t_score s1' s2' /\
  Welch.dof s1 s2 = Welch.dof s1' s2' /\
  Pooled.t_score s1 s2 = Pooled.t_score s1' s2'.
Proof.
  intros P1 P2. split; [|split; [|split]].
  - apply one_sample_perm, P1.
  - apply welch_t_perm; assumption.
  - apply welch_dof_perm; assumption.
  - apply pooled_t_perm; assumption.
Qed.

Lemma t_tests_ignore_sample_order_witness :
  OneSample.t_score [1; 2; 4] 3 = OneSample.t_score [2; 1; 4] 3.
Proof.
  apply (t_tests_ignore_sample_order [1; 2; 4] [2; 1; 4] [5; 6] [6; 5] 3).
  - apply perm_swap.
  - apply perm_swap.
Defined.





(** * Binary64: the notebooks replayed *)

(** The cells evaluated in IEEE-754 double precision give the numbers the
    notebooks record under them. *)

Example replay_simple_chi_2 :
  Simple.chi_2 (F := float) Shops.shirts = Ok 0.4827586206896552%float.
Proof. vm_compute. reflexivity. Qed.

Example replay_simple_chi_2_imbalanced :
  Simple.chi_2 (F := float) Shops.shirts_imbalanced = Ok 14.96551724137931%float.
Proof. vm_compute. reflexivity. Qed.

Example replay_get_expected :
  Contingency.get_expected (F := float)
    (Contingency.df_totals Shops.shirts_and_vests) 0 0 = Ok 29%float /\
  Contingency.get_expected (F := float)
    (Contingency.df_totals Shops.shirts_and_vests) 0 1 = Ok 60%float.
Proof. split; vm_compute; reflexivity. Qed.

Example replay_contingency_chi_2 :
  Contingency.chi_2 (F := float) Shops.shirts_and_vests
  = Ok 0.14960040876218433%float.
Proof. vm_compute. reflexivity. Qed.

Example replay_goodness_of_fit :
  GoodnessOfFit.expected_shirts_normed (F := float)
    Shops.observed_shirts Shops.expected_shirts
  = Ok [27.473684210526315; 32.05263157894737; 27.473684210526315]%float /\
  GoodnessOfFit.goodness_of_fit (F := float)
    Shops.observed_shirts Shops.expected_shirts
  = Ok 0.018336070060208%float.
Proof. split; vm_compute; reflexivity. Qed.

Example replay_z_score :
  ZTest.z_score (F := float) 7.1%float 10%float 3%float
  = Ok (-0.9666666666666668)%float.
Proof. vm_compute. reflexivity. Qed.

Example replay_one_sample_t_score :
  OneSample.t_score (F := float) Data.samples (ratio 1 10)
  = Ok 3.6387384717963607%float.
Proof. vm_compute. reflexivity. Qed.

Example replay_welch :
  Welch.t_score (F := float) Data.welch_samples_1 Data.welch_samples_2
  = Ok (-1.2797528973559824)%float /\
  Welch.dof (F := float) Data.welch_samples_1 Data.welch_samples_2
  = Ok 24.369240640703026%float.
Proof. split; vm_compute; reflexivity. Qed.

Example replay_pooled_t_score :
  Pooled.t_score (F := float) Data.pooled_samples_1 Data.pooled_samples_2
  = Ok (-1.3797269616522334)%float /\
  Pooled.dof (F := float) Data.pooled_samples_1 Data.pooled_samples_2 = 25%Z.
Proof. split; vm_compute; reflexivity. Qed.

Example replay_paired_t_score :
  Paired.t_score (F := float) Data.results_1 Data.results_2 (of_Z 5)
  = Ok (-0.23560440840463792)%float.
Proof. vm_compute. reflexivity. Qed.

(** Rounding is visible in the identities proved above in exact arithmetic.
    Scaling the expected shirts by the float 1/3 moves the last digits of the
    goodness-of-fit statistic. *)
Example scale_invariance_binary64 :
  GoodnessOfFit.goodness_of_fit (F := float) Shops.observed_shirts
    (map (mul (ratio 1 3)) Shops.expected_shirts)
  = Ok 0.018336070060207984%float.
Proof. vm_compute. reflexivity. Qed.

(** Rounding matters for a constant sample: in binary64 the mean of three
    copies of 0.1 is 0.10000000000000002, the deviations do not vanish, and
    the one-sample cell returns a t-score instead of raising. *)
Example constant_sample_binary64 :
  sample_mean (F := float) [ratio 1 10; ratio 1 10; ratio 1 10]
  = Ok 0.10000000000000002%float /\
  OneSample.t_score (F := float) [ratio 1 10; ratio 1 10; ratio 1 10] (ratio 1 10)
  = Ok 1.4142135623730951%float.
Proof. split; vm_compute; reflexivity. Qed.
